(** * Builder pattern (2/main.go): shallow embedding and verified properties

    The Go program allocates products and builders on the heap and mutates
    builders through pointer receivers.  The embedding keeps that shape:
    a [World] holds one store per struct type, a pointer is [Nil] or a
    reference to a cell of the store of its type, and every function of the
    source is a computation in a small state-and-panic monad over the world.

    A reference identifies the *variable* created by an allocation (each
    evaluation of [&T{}] creates a new variable); it is not an address.
    [Car], [Manual] and [Director] are structs without fields: their
    variables have size zero and the program cannot tell two of them apart
    by their addresses.  What the program's pointer comparison sees is given
    by [address_of] and [same_address]. *)

From stdpp Require Import base numbers list strings.

Set Default Proof Using "Type".

(** ** Pointers and stores *)

Inductive ptr (T : Type) : Type :=
  | Nil
  | Ref (l : nat).
Arguments Nil {T}.
Arguments Ref {T} l.

#[global] Instance ptr_eq_dec {T} : EqDecision (ptr T).
Proof. solve_decision. Defined.

(** Dereference of a pointer in the store of its type; [None] is the
    nil-pointer dereference. *)
Definition deref {T} (p : ptr T) (h : list T) : option T :=
  match p with
  | Nil => None
  | Ref l => h !! l
  end.

(** ** The state-and-panic monad *)

Definition M (S A : Type) : Type := S -> option (A * S).

Definition ret {S A} (a : A) : M S A := fun s => Some (a, s).

Definition bind {S A B} (m : M S A) (k : A -> M S B) : M S B :=
  fun s => match m s with
           | Some (a, s') => k a s'
           | None => None
           end.

Declare Scope go_scope.
Delimit Scope go_scope with go.
Notation "x <- m ;; k" := (bind m (fun x => k))
  (at level 100, m at next level, right associativity) : go_scope.
Notation "m ;;; k" := (bind m (fun _ => k))
  (at level 100, right associativity) : go_scope.
Open Scope go_scope.

(** ** Products *)

(** [type Car struct {}] *)
Record Car : Type := mkCar {}.

(** [type Manual struct {}] *)
Record Manual : Type := mkManual {}.

(** [type CarBuilder struct { car *Car }] *)
Record CarBuilder : Type := mkCarBuilder { car : ptr Car }.

(** [type CarManualBuilder struct { manual *Manual }] *)
Record CarManualBuilder : Type := mkCarManualBuilder { manual : ptr Manual }.

(** [type Director struct {}] *)
Record Director : Type := mkDirector {}.

#[global] Instance Car_eq_dec : EqDecision Car.
Proof. solve_decision. Defined.
#[global] Instance Manual_eq_dec : EqDecision Manual.
Proof. solve_decision. Defined.
#[global] Instance CarBuilder_eq_dec : EqDecision CarBuilder.
Proof. solve_decision. Defined.
#[global] Instance CarManualBuilder_eq_dec : EqDecision CarManualBuilder.
Proof. solve_decision. Defined.
#[global] Instance Director_eq_dec : EqDecision Director.
Proof. solve_decision. Defined.

(** ** The world: one store per struct type *)

Record World : Type := mkWorld {
  cars : list Car;
  manuals : list Manual;
  carBuilders : list CarBuilder;
  manualBuilders : list CarManualBuilder;
  directors : list Director
}.

#[global] Instance World_eq_dec : EqDecision World.
Proof. solve_decision. Defined.

Definition emptyWorld : World := mkWorld [] [] [] [] [].

Definition with_cars (h : list Car) (w : World) : World :=
  mkWorld h (manuals w) (carBuilders w) (manualBuilders w) (directors w).
Definition with_manuals (h : list Manual) (w : World) : World :=
  mkWorld (cars w) h (carBuilders w) (manualBuilders w) (directors w).
Definition with_carBuilders (h : list CarBuilder) (w : World) : World :=
  mkWorld (cars w) (manuals w) h (manualBuilders w) (directors w).
Definition with_manualBuilders (h : list CarManualBuilder) (w : World) : World :=
  mkWorld (cars w) (manuals w) (carBuilders w) h (directors w).
Definition with_directors (h : list Director) (w : World) : World :=
  mkWorld (cars w) (manuals w) (carBuilders w) (manualBuilders w) h.

(** ** Values of type [any] passed to the variadic setters *)

Inductive any : Type :=
  | AInt (n : Z)
  | AString (s : string)
  | ABool (b : bool).

#[global] Instance any_eq_dec : EqDecision any.
Proof. solve_decision. Defined.

(** ** Products: allocation *)

(** [func newCar() *Car { return &Car{} }] *)
Definition newCar : M World (ptr Car) :=
  fun w => Some (Ref (length (cars w)), with_cars (cars w ++ [mkCar]) w).

(** [func newManual() *Manual { return &Manual{} }] *)
Definition newManual : M World (ptr Manual) :=
  fun w => Some (Ref (length (manuals w)), with_manuals (manuals w ++ [mkManual]) w).

(** ** The Builder interface *)

(** [type Builder interface { reset(); setSeats(v ...any); ... }].
    [R] is the type of the receiver, [S] the state the methods act on. *)
Class Builder (R S : Type) : Type := {
  reset : R -> M S unit;
  setSeats : R -> list any -> M S unit;
  setEngine : R -> list any -> M S unit;
  setTripComputer : R -> list any -> M S unit;
  setGPS : R -> list any -> M S unit
}.

(** ** CarBuilder *)

(** [&CarBuilder{}]: allocation of a builder struct. *)
Definition alloc_CarBuilder (b : CarBuilder) : M World (ptr CarBuilder) :=
  fun w => Some (Ref (length (carBuilders w)),
                 with_carBuilders (carBuilders w ++ [b]) w).

(** Read of the field [c.car]; panics when [c] is nil. *)
Definition CarBuilder_car (c : ptr CarBuilder) : M World (ptr Car) :=
  fun w => match deref c (carBuilders w) with
           | Some b => Some (car b, w)
           | None => None
           end.

(** Assignment [c.car = v]; panics when [c] is nil. *)
Definition CarBuilder_set_car (c : ptr CarBuilder) (v : ptr Car) : M World unit :=
  fun w => match c with
           | Ref l =>
               match carBuilders w !! l with
               | Some _ =>
                   Some (tt, with_carBuilders (<[l := mkCarBuilder v]> (carBuilders w)) w)
               | None => None
               end
           | Nil => None
           end.

(** [func (c *CarBuilder) reset() { c.car = newCar() }] *)
Definition CarBuilder_reset (c : ptr CarBuilder) : M World unit :=
  p <- newCar ;; CarBuilder_set_car c p.

(** [func (c *CarBuilder) setSeats(v ...any) {}] *)
Definition CarBuilder_setSeats (c : ptr CarBuilder) (v : list any) : M World unit :=
  ret tt.

(** [func (c *CarBuilder) setEngine(v ...any) {}] *)
Definition CarBuilder_setEngine (c : ptr CarBuilder) (v : list any) : M World unit :=
  ret tt.

(** [func (c *CarBuilder) setTripComputer(v ...any) {}] *)
Definition CarBuilder_setTripComputer (c : ptr CarBuilder) (v : list any) : M World unit :=
  ret tt.

(** [func (c *CarBuilder) setGPS(v ...any) {}] *)
Definition CarBuilder_setGPS (c : ptr CarBuilder) (v : list any) : M World unit :=
  ret tt.

(** [func (c *CarBuilder) getProduct() *Car {
       var product = c.car; c.reset(); return product }] *)
Definition CarBuilder_getProduct (c : ptr CarBuilder) : M World (ptr Car) :=
  product <- CarBuilder_car c ;;
  CarBuilder_reset c ;;;
  ret product.

(** [func NewCarBuilder() *CarBuilder {
       carBuilder := &CarBuilder{}; carBuilder.reset(); return carBuilder }] *)
Definition NewCarBuilder : M World (ptr CarBuilder) :=
  carBuilder <- alloc_CarBuilder (mkCarBuilder Nil) ;;
  CarBuilder_reset carBuilder ;;;
  ret carBuilder.

#[global] Instance CarBuilder_Builder : Builder (ptr CarBuilder) World := {
  reset := CarBuilder_reset;
  setSeats := CarBuilder_setSeats;
  setEngine := CarBuilder_setEngine;
  setTripComputer := CarBuilder_setTripComputer;
  setGPS := CarBuilder_setGPS
}.

(** ** CarManualBuilder *)

(** [&CarManualBuilder{}]: allocation of a builder struct. *)
Definition alloc_CarManualBuilder (b : CarManualBuilder) : M World (ptr CarManualBuilder) :=
  fun w => Some (Ref (length (manualBuilders w)),
                 with_manualBuilders (manualBuilders w ++ [b]) w).

(** Read of the field [c.manual]; panics when [c] is nil. *)
Definition CarManualBuilder_manual (c : ptr CarManualBuilder) : M World (ptr Manual) :=
  fun w => match deref c (manualBuilders w) with
           | Some b => Some (manual b, w)
           | None => None
           end.

(** Assignment [c.manual = v]; panics when [c] is nil. *)
Definition CarManualBuilder_set_manual (c : ptr CarManualBuilder) (v : ptr Manual)
  : M World unit :=
  fun w => match c with
           | Ref l =>
               match manualBuilders w !! l with
               | Some _ =>
                   Some (tt, with_manualBuilders
                               (<[l := mkCarManualBuilder v]> (manualBuilders w)) w)
               | None => None
               end
           | Nil => None
           end.

(** [func (c *CarManualBuilder) reset() { c.manual = newManual() }] *)
Definition CarManualBuilder_reset (c : ptr CarManualBuilder) : M World unit :=
  p <- newManual ;; CarManualBuilder_set_manual c p.

(** [func (c *CarManualBuilder) setSeats(v ...any) {}] *)
Definition CarManualBuilder_setSeats (c : ptr CarManualBuilder) (v : list any)
  : M World unit := ret tt.

(** [func (c *CarManualBuilder) setEngine(v ...any) {}] *)
Definition CarManualBuilder_setEngine (c : ptr CarManualBuilder) (v : list any)
  : M World unit := ret tt.

(** [func (c *CarManualBuilder) setTripComputer(v ...any) {}] *)
Definition CarManualBuilder_setTripComputer (c : ptr CarManualBuilder) (v : list any)
  : M World unit := ret tt.

(** [func (c *CarManualBuilder) setGPS(v ...any) {}] *)
Definition CarManualBuilder_setGPS (c : ptr CarManualBuilder) (v : list any)
  : M World unit := ret tt.

(** [func (c *CarManualBuilder) getProduct() *Manual { return c.manual }] *)
Definition CarManualBuilder_getProduct (c : ptr CarManualBuilder) : M World (ptr Manual) :=
  CarManualBuilder_manual c.

(** [func NewCarManualBuilder() *CarManualBuilder {
       carManualBuilder := &CarManualBuilder{}; carManualBuilder.reset();
       return carManualBuilder }] *)
Definition NewCarManualBuilder : M World (ptr CarManualBuilder) :=
  carManualBuilder <- alloc_CarManualBuilder (mkCarManualBuilder Nil) ;;
  CarManualBuilder_reset carManualBuilder ;;;
  ret carManualBuilder.

#[global] Instance CarManualBuilder_Builder : Builder (ptr CarManualBuilder) World := {
  reset := CarManualBuilder_reset;
  setSeats := CarManualBuilder_setSeats;
  setEngine := CarManualBuilder_setEngine;
  setTripComputer := CarManualBuilder_setTripComputer;
  setGPS := CarManualBuilder_setGPS
}.

(** ** Director *)

Section Director.
Context {R S : Type} `{!Builder R S}.

(** [func (d *Director) constructSportsCar(builder Builder) {
       builder.reset(); builder.setSeats(2); builder.setEngine("SportEngine");
       builder.setTripComputer(true); builder.setGPS(true) }].
    The receiver [d] is never dereferenced. *)
Definition constructSportsCar (d : ptr Director) (builder : R) : M S unit :=
  reset builder ;;;
  setSeats builder [AInt 2] ;;;
  setEngine builder [AString "SportEngine"] ;;;
  setTripComputer builder [ABool true] ;;;
  setGPS builder [ABool true].

(** [func (d *Director) constructSUV(builder Builder) {}] *)
Definition constructSUV (d : ptr Director) (builder : R) : M S unit :=
  ret tt.

End Director.

(** [func NewDirector() *Director { return &Director{} }] *)
Definition NewDirector : M World (ptr Director) :=
  fun w => Some (Ref (length (directors w)),
                 with_directors (directors w ++ [mkDirector]) w).

(** ** A recording test double

    [spyOn b] wraps any builder [b]; every interface call is forwarded to
    [b] with the same arguments and appended to a log kept next to the
    state of [b].  The log is what a test double recording call order and
    arguments observes. *)

Inductive Call : Type :=
  | CallReset
  | CallSetSeats (v : list any)
  | CallSetEngine (v : list any)
  | CallSetTripComputer (v : list any)
  | CallSetGPS (v : list any).

#[global] Instance Call_eq_dec : EqDecision Call.
Proof. solve_decision. Defined.

Record Spy (R : Type) : Type := spyOn { spied : R }.
Arguments spyOn {R} spied.
Arguments spied {R} _.

Definition recording {S} (c : Call) (m : M S unit) : M (S * list Call) unit :=
  fun sl => match m sl.1 with
            | Some (_, s') => Some (tt, (s', sl.2 ++ [c]))
            | None => None
            end.

#[global] Instance Spy_Builder {R S} `{!Builder R S} : Builder (Spy R) (S * list Call) := {
  reset r := recording CallReset (reset (spied r));
  setSeats r v := recording (CallSetSeats v) (setSeats (spied r) v);
  setEngine r v := recording (CallSetEngine v) (setEngine (spied r) v);
  setTripComputer r v := recording (CallSetTripComputer v) (setTripComputer (spied r) v);
  setGPS r v := recording (CallSetGPS v) (setGPS (spied r) v)
}.

(** A double that is a builder of its own: it owns nothing, never panics,
    and its state is the log of the calls it received. *)
Record Recorder : Type := mkRecorder {}.

Definition record_call (c : Call) : M (list Call) unit :=
  fun log => Some (tt, log ++ [c]).

#[global] Instance Recorder_Builder : Builder Recorder (list Call) := {
  reset _ := record_call CallReset;
  setSeats _ v := record_call (CallSetSeats v);
  setEngine _ v := record_call (CallSetEngine v);
  setTripComputer _ v := record_call (CallSetTripComputer v);
  setGPS _ v := record_call (CallSetGPS v)
}.

(** ** Observations used in the statements *)

(** A pointer is valid in a store when it is nil or refers to an allocated
    variable; Go's pointers are always valid in this sense. *)
Definition valid_ptr {T} (p : ptr T) (h : list T) : bool :=
  match p with
  | Nil => true
  | Ref l => bool_decide (l < length h)
  end.

(** The product a car builder owns, by value: [None] when the receiver is
    nil, [Some None] when the builder's field is nil. *)
Definition CarBuilder_owned (c : ptr CarBuilder) (w : World) : option (option Car) :=
  match deref c (carBuilders w) with
  | Some b => Some (deref (car b) (cars w))
  | None => None
  end.

Definition CarManualBuilder_owned (c : ptr CarManualBuilder) (w : World)
  : option (option Manual) :=
  match deref c (manualBuilders w) with
  | Some b => Some (deref (manual b) (manuals w))
  | None => None
  end.

(** The owned-product field of a builder is non-nil. *)
Definition CarBuilder_has_product (c : ptr CarBuilder) (w : World) : bool :=
  match deref c (carBuilders w) with
  | Some b => bool_decide (car b <> Nil)
  | None => false
  end.

Definition CarManualBuilder_has_product (c : ptr CarManualBuilder) (w : World) : bool :=
  match deref c (manualBuilders w) with
  | Some b => bool_decide (manual b <> Nil)
  | None => false
  end.

(** A computation [k'] over the spied state *logs* the calls [l] for [k]
    when it acts on the state like [k] and appends [l] to the log. *)
Definition logs {S} (k' : M (S * list Call) unit) (k : M S unit) (l : list Call) : Prop :=
  forall s log,
    k' (s, log) =
    match k s with
    | Some (_, s') => Some (tt, (s', log ++ l))
    | None => None
    end.

(** The world after [c.reset()] on the car builder stored at [l]. *)
Definition after_CarBuilder_reset (l : nat) (w : World) : World :=
  mkWorld (cars w ++ [mkCar]) (manuals w)
          (<[l := mkCarBuilder (Ref (length (cars w)))]> (carBuilders w))
          (manualBuilders w) (directors w).

Definition after_CarManualBuilder_reset (l : nat) (w : World) : World :=
  mkWorld (cars w) (manuals w ++ [mkManual]) (carBuilders w)
          (<[l := mkCarManualBuilder (Ref (length (manuals w)))]> (manualBuilders w))
          (directors w).

(** ** Sequences of operations *)

(** One call through the Builder interface. *)
Definition invoke {R S} `{!Builder R S} (k : Call) (r : R) : M S unit :=
  match k with
  | CallReset => reset r
  | CallSetSeats v => setSeats r v
  | CallSetEngine v => setEngine r v
  | CallSetTripComputer v => setTripComputer r v
  | CallSetGPS v => setGPS r v
  end.

Fixpoint run_all {S X} (step : X -> M S unit) (xs : list X) : M S unit :=
  match xs with
  | [] => ret tt
  | x :: xs' => step x ;;; run_all step xs'
  end.

(** The calls of the interface other than [reset]. *)
Definition is_setter (k : Call) : bool :=
  match k with
  | CallReset => false
  | _ => true
  end.

(** An operation a client can apply to a concrete builder: a call of the
    interface, or [getProduct] (whose result is dropped here). *)
Inductive Op : Type :=
  | OpCall (k : Call)
  | OpGetProduct.

Definition CarBuilder_op (c : ptr CarBuilder) (o : Op) : M World unit :=
  match o with
  | OpCall k => invoke k c
  | OpGetProduct => _ <- CarBuilder_getProduct c ;; ret tt
  end.

Definition CarManualBuilder_op (c : ptr CarManualBuilder) (o : Op) : M World unit :=
  match o with
  | OpCall k => invoke k c
  | OpGetProduct => _ <- CarManualBuilder_getProduct c ;; ret tt
  end.

(** In [w] the builder [c] owns a product that is allocated, empty, and
    did not exist in the earlier world [w0]. *)
Definition CarBuilder_freshly_reset (w0 : World) (c : ptr CarBuilder) (w : World) : Prop :=
  exists p, deref c (carBuilders w) = Some (mkCarBuilder p) /\
            deref p (cars w0) = None /\
            deref p (cars w) = Some mkCar.

Definition CarManualBuilder_freshly_reset
    (w0 : World) (c : ptr CarManualBuilder) (w : World) : Prop :=
  exists p, deref c (manualBuilders w) = Some (mkCarManualBuilder p) /\
            deref p (manuals w0) = None /\
            deref p (manuals w) = Some mkManual.

(** A call a client can make on a director. *)
Inductive DirectorCall (R : Type) : Type :=
  | SportsCar (builder : R)
  | SUV (builder : R).
Arguments SportsCar {R} builder.
Arguments SUV {R} builder.

Definition Director_call {R S} `{!Builder R S} (d : ptr Director) (k : DirectorCall R)
  : M S unit :=
  match k with
  | SportsCar builder => constructSportsCar d builder
  | SUV builder => constructSUV d builder
  end.

(** The world after [NewCarBuilder()] in an empty world, after
    [NewCarManualBuilder()] in an empty world, and with one builder of
    each kind. *)
Definition car_world : World :=
  mkWorld [mkCar] [] [mkCarBuilder (Ref 0)] [] [].
Definition manual_world : World :=
  mkWorld [] [mkManual] [] [mkCarManualBuilder (Ref 0)] [].
Definition both_world : World :=
  mkWorld [mkCar] [mkManual] [mkCarBuilder (Ref 0)] [mkCarManualBuilder (Ref 0)] [].

(** ** Interface values and the client *)

Definition panic {S A} : M S A := fun _ => None.

(** A value of the interface type [Builder]: the nil interface, or a
    pointer of one of the two concrete builder types. *)
Inductive BuilderValue : Type :=
  | NilBuilder
  | OfCarBuilder (c : ptr CarBuilder)
  | OfCarManualBuilder (c : ptr CarManualBuilder).

(** Method calls on an interface value dispatch on its dynamic type and
    panic on the nil interface. *)
#[global] Instance BuilderValue_Builder : Builder BuilderValue World := {
  reset b :=
    match b with
    | OfCarBuilder c => CarBuilder_reset c
    | OfCarManualBuilder c => CarManualBuilder_reset c
    | NilBuilder => panic
    end;
  setSeats b v :=
    match b with
    | OfCarBuilder c => CarBuilder_setSeats c v
    | OfCarManualBuilder c => CarManualBuilder_setSeats c v
    | NilBuilder => panic
    end;
  setEngine b v :=
    match b with
    | OfCarBuilder c => CarBuilder_setEngine c v
    | OfCarManualBuilder c => CarManualBuilder_setEngine c v
    | NilBuilder => panic
    end;
  setTripComputer b v :=
    match b with
    | OfCarBuilder c => CarBuilder_setTripComputer c v
    | OfCarManualBuilder c => CarManualBuilder_setTripComputer c v
    | NilBuilder => panic
    end;
  setGPS b v :=
    match b with
    | OfCarBuilder c => CarBuilder_setGPS c v
    | OfCarManualBuilder c => CarManualBuilder_setGPS c v
    | NilBuilder => panic
    end
}.

(** The type assertion of [builder] to [*CarBuilder]; panics on any other
    dynamic type. *)
Definition assert_CarBuilder (b : BuilderValue) : M World (ptr CarBuilder) :=
  match b with
  | OfCarBuilder c => ret c
  | _ => panic
  end.

(** The type assertion of [builder] to [*CarManualBuilder]. *)
Definition assert_CarManualBuilder (b : BuilderValue) : M World (ptr CarManualBuilder) :=
  match b with
  | OfCarManualBuilder c => ret c
  | _ => panic
  end.

(** [type Application struct{}] *)
Record Application : Type := mkApplication {}.

(** What is handed to [fmt.Println]: the text it writes is not modelled,
    standard output is the sequence of the values printed. *)
Inductive Printed : Type :=
  | PrintedCar (p : ptr Car)
  | PrintedManual (p : ptr Manual).

#[global] Instance Printed_eq_dec : EqDecision Printed.
Proof. solve_decision. Defined.

Record Process : Type := mkProcess {
  heap : World;
  stdout : list Printed
}.

(** A computation on the heap, run in a process. *)
Definition on_heap {A} (m : M World A) : M Process A :=
  fun ps => match m (heap ps) with
            | Some (a, w') => Some (a, mkProcess w' (stdout ps))
            | None => None
            end.

(** [fmt.Println(v)] *)
Definition Println (v : Printed) : M Process unit :=
  fun ps => Some (tt, mkProcess (heap ps) (stdout ps ++ [v])).

(** [func (a *Application) makeCar() {
       var director = NewDirector()
       var builder Builder
       builder = NewCarBuilder()
       director.constructSportsCar(builder)
       car := builder.[*CarBuilder].getProduct()
       fmt.Println(car)
       builder = NewCarManualBuilder()
       director.constructSportsCar(builder)
       manual := builder.[*CarManualBuilder].getProduct()
       fmt.Println(manual) }].
    (the type assertions are written with square brackets here).  The two
    assignments to the variable [builder] are the bindings [builder1] and
    [builder2]. *)
Definition makeCar (a : ptr Application) : M Process unit :=
  director <- on_heap NewDirector ;;
  carBuilder <- on_heap NewCarBuilder ;;
  let builder1 := OfCarBuilder carBuilder in
  on_heap (constructSportsCar director builder1) ;;;
  c <- on_heap (assert_CarBuilder builder1) ;;
  car <- on_heap (CarBuilder_getProduct c) ;;
  Println (PrintedCar car) ;;;
  carManualBuilder <- on_heap NewCarManualBuilder ;;
  let builder2 := OfCarManualBuilder carManualBuilder in
  on_heap (constructSportsCar director builder2) ;;;
  m <- on_heap (assert_CarManualBuilder builder2) ;;
  manual <- on_heap (CarManualBuilder_getProduct m) ;;
  Println (PrintedManual manual).

(** ** Client actions and world transitions *)

(** Whether an operation is a setter call. *)
Definition is_setter_op (o : Op) : bool :=
  match o with
  | OpCall k => is_setter k
  | OpGetProduct => false
  end.

(** The operations in which a car builder takes a new car: [reset] and
    [getProduct]. *)
Definition allocates_car (o : Op) : bool := negb (is_setter_op o).

(** The operations in which a manual builder takes a new manual: [reset]
    only. *)
Definition allocates_manual (o : Op) : bool :=
  match o with
  | OpCall CallReset => true
  | _ => false
  end.

(** [n] calls of [m] in a row, with their results in order. *)
Fixpoint times {S A} (n : nat) (m : M S A) : M S (list A) :=
  match n with
  | 0 => ret []
  | Datatypes.S n' => x <- m ;; xs <- times n' m ;; ret (x :: xs)
  end.

(** Anything a client can do with the functions of the package. *)
Inductive Action : Type :=
  | ActNewCarBuilder
  | ActNewCarManualBuilder
  | ActNewDirector
  | ActCarBuilder (c : ptr CarBuilder) (o : Op)
  | ActCarManualBuilder (c : ptr CarManualBuilder) (o : Op)
  | ActDirectCarBuilder (d : ptr Director) (k : DirectorCall (ptr CarBuilder))
  | ActDirectCarManualBuilder (d : ptr Director) (k : DirectorCall (ptr CarManualBuilder)).

Definition perform (a : Action) : M World unit :=
  match a with
  | ActNewCarBuilder => _ <- NewCarBuilder ;; ret tt
  | ActNewCarManualBuilder => _ <- NewCarManualBuilder ;; ret tt
  | ActNewDirector => _ <- NewDirector ;; ret tt
  | ActCarBuilder c o => CarBuilder_op c o
  | ActCarManualBuilder c o => CarManualBuilder_op c o
  | ActDirectCarBuilder d k => Director_call d k
  | ActDirectCarManualBuilder d k => Director_call d k
  end.

(** The elementary changes of the world the package's functions are made
    of: allocation of a director or of a builder struct with a nil field,
    and [reset] of an allocated builder. *)
Inductive transition : World -> World -> Prop :=
  | alloc_director w :
      transition w (with_directors (directors w ++ [mkDirector]) w)
  | alloc_car_builder w :
      transition w (with_carBuilders (carBuilders w ++ [mkCarBuilder Nil]) w)
  | alloc_manual_builder w :
      transition w (with_manualBuilders (manualBuilders w ++ [mkCarManualBuilder Nil]) w)
  | reset_car_builder w l b :
      carBuilders w !! l = Some b ->
      transition w (after_CarBuilder_reset l w)
  | reset_manual_builder w l b :
      manualBuilders w !! l = Some b ->
      transition w (after_CarManualBuilder_reset l w).

Inductive transitions : World -> World -> Prop :=
  | transitions_refl w : transitions w w
  | transitions_step w1 w2 w3 :
      transition w1 w2 -> transitions w2 w3 -> transitions w1 w3.

(** ** Well-formed worlds *)

(** The product pointers held by the builders of the world. *)
Definition held_cars (w : World) : list (ptr Car) := car <$> carBuilders w.
Definition held_manuals (w : World) : list (ptr Manual) := manual <$> manualBuilders w.

(** Every builder's product pointer is nil or refers to an allocated
    product. *)
Definition World_wf (w : World) : bool :=
  forallb (fun p => valid_ptr p (cars w)) (held_cars w) &&
  forallb (fun p => valid_ptr p (manuals w)) (held_manuals w).

(** ** Addresses of zero-size variables *)

(** A struct type without fields; all its values are equal and its
    variables have size zero. *)
Class ZeroSize (T : Type) : Prop := zero_size : forall x y : T, x = y.

#[global] Instance Car_ZeroSize : ZeroSize Car.
Proof. intros [] []. reflexivity. Qed.
#[global] Instance Manual_ZeroSize : ZeroSize Manual.
Proof. intros [] []. reflexivity. Qed.
#[global] Instance Director_ZeroSize : ZeroSize Director.
Proof. intros [] []. reflexivity. Qed.

(** The address held by a pointer to a variable of a zero-size type.  The
    variables [&Car{}], [&Manual{}] and [&Director{}] create escape to the
    heap, and the runtime places every zero-size heap variable at the one
    address of its zero base: a non-nil pointer to any of them holds that
    address. *)
Inductive address : Type :=
  | NullAddress
  | ZeroBase.

#[global] Instance address_eq_dec : EqDecision address.
Proof. solve_decision. Defined.



(** * Properties *)

(** ** Monad and store lemmas *)

Lemma bind_Some {S A B} (m : M S A) (k : A -> M S B) s a s' :
  m s = Some (a, s') -> bind m k s = k a s'.
Proof. intros E. unfold bind. now rewrite E. Qed.

Lemma logs_recording {S} (c : Call) (m : M S unit) :
  logs (recording c m) m [c].
Proof. intros s log. unfold recording; simpl. now destruct (m s) as [[[] s']|]. Qed.

Lemma logs_seq {S} (c : Call) (m : M S unit) k' k l :
  logs k' k l ->
  logs (bind (recording c m) (fun _ => k')) (bind m (fun _ => k)) (c :: l).
Proof.
  intros Hk s log. unfold bind, recording; simpl.
  destruct (m s) as [[[] s1]|]; [|reflexivity].
  rewrite Hk. destruct (k s1) as [[[] s2]|]; [|reflexivity].
  now rewrite <- app_assoc.
Qed.

(** ** Director: call sequences *)

(** C1. For every builder behind the Builder interface, observed through
    the recording double, [constructSportsCar] forwards to the builder and
    appends to the log exactly the calls reset, setSeats(2),
    setEngine("SportEngine"), setTripComputer(true), setGPS(true), in this
    order and with these arguments; nothing else is logged.  (When a step
    of the builder panics the run is aborted and has no final state.)  The
    double that only records, which never panics, receives exactly this
    sequence. *)
Theorem constructSportsCar_call_sequence
    {R S} `{!Builder R S} (d : ptr Director) (builder : R) (s : S) (log : list Call) :
  constructSportsCar d (spyOn builder) (s, log) =
  match constructSportsCar d builder s with
  | Some (_, s') =>
      Some (tt, (s', log ++ [CallReset;
                             CallSetSeats [AInt 2];
                             CallSetEngine [AString "SportEngine"];
                             CallSetTripComputer [ABool true];
                             CallSetGPS [ABool true]]))
  | None => None
  end /\
  constructSportsCar d mkRecorder log =
  Some (tt, log ++ [CallReset;
                    CallSetSeats [AInt 2];
                    CallSetEngine [AString "SportEngine"];
                    CallSetTripComputer [ABool true];
                    CallSetGPS [ABool true]]).
Proof.
  split.
  - revert s log. change (logs (constructSportsCar d (spyOn builder))
                               (constructSportsCar d builder)
                               [CallReset;
                                CallSetSeats [AInt 2];
                                CallSetEngine [AString "SportEngine"];
                                CallSetTripComputer [ABool true];
                                CallSetGPS [ABool true]]).
    unfold constructSportsCar; simpl.
    do 4 apply logs_seq. apply logs_recording.
  - unfold constructSportsCar, bind; simpl. unfold record_call.
    now rewrite <- !app_assoc.
Qed.

(** C5. For every builder behind the Builder interface, [constructSUV]
    returns normally, leaves the builder's state as it was, and neither
    recording double logs a call. *)
Theorem constructSUV_no_calls
    {R S} `{!Builder R S} (d : ptr Director) (builder : R) (s : S) (log : list Call) :
  constructSUV d builder s = Some (tt, s) /\
  constructSUV d (spyOn builder) (s, log) = Some (tt, (s, log)) /\
  constructSUV d mkRecorder log = Some (tt, log).
Proof. repeat split. Qed.

(** ** Stores: allocation and update *)

Lemma deref_alloc_new {T} (h : list T) (x : T) :
  deref (Ref (length h)) (h ++ [x]) = Some x.
Proof. simpl. apply list_lookup_middle. reflexivity. Qed.

Lemma deref_unallocated {T} (h : list T) :
  deref (Ref (length h)) h = None.
Proof. simpl. apply lookup_ge_None. lia. Qed.

Lemma deref_alloc_old {T} (p : ptr T) (h : list T) (x : T) :
  valid_ptr p h = true -> deref p (h ++ [x]) = deref p h.
Proof.
  destruct p as [|l]; simpl; [reflexivity|].
  intros Hl. apply bool_decide_eq_true in Hl. now apply lookup_app_l.
Qed.

Lemma valid_ptr_not_new {T} (p : ptr T) (h : list T) :
  valid_ptr p h = true -> Ref (length h) <> p.
Proof.
  destruct p as [|l]; simpl; [discriminate|].
  intros Hl Heq. apply bool_decide_eq_true in Hl. injection Heq as Heq. lia.
Qed.

Lemma deref_Some_valid {T} (p : ptr T) (h : list T) (x : T) :
  deref p h = Some x -> valid_ptr p h = true.
Proof.
  destruct p as [|l]; simpl; [discriminate|].
  intros Hl. apply bool_decide_eq_true. now apply lookup_lt_Some in Hl.
Qed.

(** ** reset *)

Lemma CarBuilder_reset_ok l b w :
  carBuilders w !! l = Some b ->
  CarBuilder_reset (Ref l) w = Some (tt, after_CarBuilder_reset l w).
Proof.
  intros Hb. unfold CarBuilder_reset, bind, newCar, CarBuilder_set_car; simpl.
  now rewrite Hb.
Qed.

Lemma CarManualBuilder_reset_ok l b w :
  manualBuilders w !! l = Some b ->
  CarManualBuilder_reset (Ref l) w = Some (tt, after_CarManualBuilder_reset l w).
Proof.
  intros Hb. unfold CarManualBuilder_reset, bind, newManual, CarManualBuilder_set_manual; simpl.
  now rewrite Hb.
Qed.

Lemma CarBuilder_reset_nil w : CarBuilder_reset Nil w = None.
Proof. reflexivity. Qed.

Lemma CarManualBuilder_reset_nil w : CarManualBuilder_reset Nil w = None.
Proof. reflexivity. Qed.

Lemma after_CarBuilder_reset_builder l b w :
  carBuilders w !! l = Some b ->
  carBuilders (after_CarBuilder_reset l w) !! l =
  Some (mkCarBuilder (Ref (length (cars w)))).
Proof. intros Hb. simpl. apply list_lookup_insert_eq. now apply lookup_lt_Some in Hb. Qed.

Lemma after_CarManualBuilder_reset_builder l b w :
  manualBuilders w !! l = Some b ->
  manualBuilders (after_CarManualBuilder_reset l w) !! l =
  Some (mkCarManualBuilder (Ref (length (manuals w)))).
Proof. intros Hb. simpl. apply list_lookup_insert_eq. now apply lookup_lt_Some in Hb. Qed.

Lemma CarBuilder_owned_after_reset l b w :
  carBuilders w !! l = Some b ->
  CarBuilder_owned (Ref l) (after_CarBuilder_reset l w) = Some (Some mkCar).
Proof.
  intros Hb. unfold CarBuilder_owned, deref at 1.
  rewrite (after_CarBuilder_reset_builder l b w Hb).
  f_equal. apply deref_alloc_new.
Qed.

Lemma CarManualBuilder_owned_after_reset l b w :
  manualBuilders w !! l = Some b ->
  CarManualBuilder_owned (Ref l) (after_CarManualBuilder_reset l w) = Some (Some mkManual).
Proof.
  intros Hb. unfold CarManualBuilder_owned, deref at 1.
  rewrite (after_CarManualBuilder_reset_builder l b w Hb).
  f_equal. apply deref_alloc_new.
Qed.

(** ** Setter sequences *)

Lemma run_all_setters_CarBuilder (c : ptr CarBuilder) calls w :
  forallb is_setter calls = true ->
  run_all (fun k => invoke k c) calls w = Some (tt, w).
Proof.
  induction calls as [|k calls IH]; simpl; [reflexivity|].
  intros Hall. apply andb_prop in Hall as [Hk Hrest].
  destruct k; try discriminate; simpl; exact (IH Hrest).
Qed.

Lemma run_all_setters_CarManualBuilder (c : ptr CarManualBuilder) calls w :
  forallb is_setter calls = true ->
  run_all (fun k => invoke k c) calls w = Some (tt, w).
Proof.
  induction calls as [|k calls IH]; simpl; [reflexivity|].
  intros Hall. apply andb_prop in Hall as [Hk Hrest].
  destruct k; try discriminate; simpl; exact (IH Hrest).
Qed.

(** ** getProduct *)

Lemma CarBuilder_getProduct_ok l b w :
  carBuilders w !! l = Some b ->
  CarBuilder_getProduct (Ref l) w = Some (car b, after_CarBuilder_reset l w).
Proof.
  intros Hb. unfold CarBuilder_getProduct, bind, CarBuilder_car, deref.
  rewrite Hb. now rewrite (CarBuilder_reset_ok l b w Hb).
Qed.

Lemma CarManualBuilder_getProduct_ok c b w :
  deref c (manualBuilders w) = Some b ->
  CarManualBuilder_getProduct c w = Some (manual b, w).
Proof.
  intros Hb. unfold CarManualBuilder_getProduct, CarManualBuilder_manual. now rewrite Hb.
Qed.


(** C3. In every state of a manual builder, [getProduct] returns the
    pointer the builder holds and changes nothing: no reset is performed
    and the builder still holds that manual.  Two calls of [getProduct],
    with any setter calls but no [reset] in between, return the same
    pointer and leave the world as it was. *)
Theorem CarManualBuilder_getProduct_keeps_product
    (c : ptr CarManualBuilder) (w : World) (b : CarManualBuilder) (calls : list Call)
    (Hc : deref c (manualBuilders w) = Some b)
    (Hcalls : forallb is_setter calls = true) :
  CarManualBuilder_getProduct c w = Some (manual b, w) /\
  (p1 <- CarManualBuilder_getProduct c ;;
   run_all (fun k => invoke k c) calls ;;;
   p2 <- CarManualBuilder_getProduct c ;;
   ret (p1, p2)) w = Some ((manual b, manual b), w).
Proof.
  pose proof (CarManualBuilder_getProduct_ok c b w Hc) as H1.
  split; [exact H1|].
  rewrite (bind_Some _ _ _ _ _ H1).
  rewrite (bind_Some _ _ _ _ _ (run_all_setters_CarManualBuilder c calls w Hcalls)).
  now rewrite (bind_Some _ _ _ _ _ H1).
Qed.

(** ** Constructors *)

Lemma NewCarBuilder_ok w :
  NewCarBuilder w =
  Some (Ref (length (carBuilders w)),
        after_CarBuilder_reset (length (carBuilders w))
          (with_carBuilders (carBuilders w ++ [mkCarBuilder Nil]) w)).
Proof.
  unfold NewCarBuilder, bind, alloc_CarBuilder.
  erewrite CarBuilder_reset_ok; [reflexivity|].
  simpl. now apply list_lookup_middle.
Qed.

Lemma NewCarManualBuilder_ok w :
  NewCarManualBuilder w =
  Some (Ref (length (manualBuilders w)),
        after_CarManualBuilder_reset (length (manualBuilders w))
          (with_manualBuilders (manualBuilders w ++ [mkCarManualBuilder Nil]) w)).
Proof.
  unfold NewCarManualBuilder, bind, alloc_CarManualBuilder.
  erewrite CarManualBuilder_reset_ok; [reflexivity|].
  simpl. now apply list_lookup_middle.
Qed.

(** C4. Each constructor allocates a builder struct and runs [reset] on it
    before returning it.  In the world it returns, the new builder's
    product pointer is non-nil and refers to a product that did not exist
    before the call and has the value of the empty struct. *)
Theorem constructors_reset_initially (w : World) :
  (exists c w0 w1 p,
      alloc_CarBuilder (mkCarBuilder Nil) w = Some (c, w0) /\
      CarBuilder_reset c w0 = Some (tt, w1) /\
      NewCarBuilder w = Some (c, w1) /\
      deref c (carBuilders w) = None /\
      deref c (carBuilders w1) = Some (mkCarBuilder p) /\
      p <> Nil /\
      deref p (cars w) = None /\
      deref p (cars w1) = Some mkCar) /\
  (exists c w0 w1 p,
      alloc_CarManualBuilder (mkCarManualBuilder Nil) w = Some (c, w0) /\
      CarManualBuilder_reset c w0 = Some (tt, w1) /\
      NewCarManualBuilder w = Some (c, w1) /\
      deref c (manualBuilders w) = None /\
      deref c (manualBuilders w1) = Some (mkCarManualBuilder p) /\
      p <> Nil /\
      deref p (manuals w) = None /\
      deref p (manuals w1) = Some mkManual).
Proof.
  split.
  - set (n := length (carBuilders w)).
    set (w0 := with_carBuilders (carBuilders w ++ [mkCarBuilder Nil]) w).
    assert (Hn : carBuilders w0 !! n = Some (mkCarBuilder Nil))
      by (simpl; now apply list_lookup_middle).
    exists (Ref n), w0, (after_CarBuilder_reset n w0), (Ref (length (cars w))).
    repeat split.
    + apply (CarBuilder_reset_ok n _ w0 Hn).
    + apply NewCarBuilder_ok.
    + apply deref_unallocated.
    + apply (after_CarBuilder_reset_builder n _ w0 Hn).
    + discriminate.
    + apply deref_unallocated.
    + apply deref_alloc_new.
  - set (n := length (manualBuilders w)).
    set (w0 := with_manualBuilders (manualBuilders w ++ [mkCarManualBuilder Nil]) w).
    assert (Hn : manualBuilders w0 !! n = Some (mkCarManualBuilder Nil))
      by (simpl; now apply list_lookup_middle).
    exists (Ref n), w0, (after_CarManualBuilder_reset n w0), (Ref (length (manuals w))).
    repeat split.
    + apply (CarManualBuilder_reset_ok n _ w0 Hn).
    + apply NewCarManualBuilder_ok.
    + apply deref_unallocated.
    + apply (after_CarManualBuilder_reset_builder n _ w0 Hn).
    + discriminate.
    + apply deref_unallocated.
    + apply deref_alloc_new.
Qed.

(** ** Setters *)

(** C6. Every setter of both concrete builders, on any receiver and with
    any arguments, returns normally with no value and leaves the whole
    world as it was: the builder still holds the same product variable,
    nothing is allocated, and no builder or product other than the owned
    one changes (the owned product has no field that could change). *)
Theorem setters_change_nothing
    (c : ptr CarBuilder) (m : ptr CarManualBuilder) (v : list any) (w : World) :
  (CarBuilder_setSeats c v w = Some (tt, w) /\
   CarBuilder_setEngine c v w = Some (tt, w) /\
   CarBuilder_setTripComputer c v w = Some (tt, w) /\
   CarBuilder_setGPS c v w = Some (tt, w)) /\
  (CarManualBuilder_setSeats m v w = Some (tt, w) /\
   CarManualBuilder_setEngine m v w = Some (tt, w) /\
   CarManualBuilder_setTripComputer m v w = Some (tt, w) /\
   CarManualBuilder_setGPS m v w = Some (tt, w)).
Proof. repeat split. Qed.

(** ** The owned product is never nil *)

Lemma CarBuilder_has_product_after_reset l b w :
  carBuilders w !! l = Some b ->
  CarBuilder_has_product (Ref l) (after_CarBuilder_reset l w) = true.
Proof.
  intros Hb. unfold CarBuilder_has_product, deref.
  now rewrite (after_CarBuilder_reset_builder l b w Hb).
Qed.

Lemma CarManualBuilder_has_product_after_reset l b w :
  manualBuilders w !! l = Some b ->
  CarManualBuilder_has_product (Ref l) (after_CarManualBuilder_reset l w) = true.
Proof.
  intros Hb. unfold CarManualBuilder_has_product, deref.
  now rewrite (after_CarManualBuilder_reset_builder l b w Hb).
Qed.

Lemma CarBuilder_has_product_receiver c w :
  CarBuilder_has_product c w = true ->
  exists l b, c = Ref l /\ carBuilders w !! l = Some b.
Proof.
  unfold CarBuilder_has_product. destruct c as [|l]; simpl; [discriminate|].
  destruct (carBuilders w !! l) as [b|] eqn:Hb; [|discriminate]. eauto.
Qed.

Lemma CarManualBuilder_has_product_receiver c w :
  CarManualBuilder_has_product c w = true ->
  exists l b, c = Ref l /\ manualBuilders w !! l = Some b.
Proof.
  unfold CarManualBuilder_has_product. destruct c as [|l]; simpl; [discriminate|].
  destruct (manualBuilders w !! l) as [b|] eqn:Hb; [|discriminate]. eauto.
Qed.

Lemma CarBuilder_op_has_product c o w :
  CarBuilder_has_product c w = true ->
  exists w', CarBuilder_op c o w = Some (tt, w') /\ CarBuilder_has_product c w' = true.
Proof.
  intros Hinv.
  destruct (CarBuilder_has_product_receiver c w Hinv) as (l & b & -> & Hb).
  destruct o as [[| v | v | v | v]|]; simpl;
    try (exists w; split; [reflexivity|exact Hinv]).
  - exists (after_CarBuilder_reset l w). split.
    + now apply (CarBuilder_reset_ok l b).
    + now apply (CarBuilder_has_product_after_reset l b).
  - exists (after_CarBuilder_reset l w). split.
    + now rewrite (bind_Some _ _ _ _ _ (CarBuilder_getProduct_ok l b w Hb)).
    + now apply (CarBuilder_has_product_after_reset l b).
Qed.

Lemma CarManualBuilder_op_has_product c o w :
  CarManualBuilder_has_product c w = true ->
  exists w', CarManualBuilder_op c o w = Some (tt, w') /\
             CarManualBuilder_has_product c w' = true.
Proof.
  intros Hinv.
  destruct (CarManualBuilder_has_product_receiver c w Hinv) as (l & b & -> & Hb).
  destruct o as [[| v | v | v | v]|]; simpl;
    try (exists w; split; [reflexivity|exact Hinv]).
  - exists (after_CarManualBuilder_reset l w). split.
    + now apply (CarManualBuilder_reset_ok l b).
    + now apply (CarManualBuilder_has_product_after_reset l b).
  - exists w. split; [|exact Hinv].
    now rewrite (bind_Some _ _ _ _ _ (CarManualBuilder_getProduct_ok (Ref l) b w Hb)).
Qed.

(** An invariant kept by every step is kept by every sequence of steps,
    and the sequence runs to completion. *)
Lemma run_all_invariant {S X} (step : X -> M S unit) (I : S -> Prop) :
  (forall x s, I s -> exists s', step x s = Some (tt, s') /\ I s') ->
  forall xs s, I s -> exists s', run_all step xs s = Some (tt, s') /\ I s'.
Proof.
  intros Hstep xs. induction xs as [|x xs IH]; intros s Hs; simpl.
  - exists s. now split.
  - destruct (Hstep x s Hs) as (s1 & E1 & H1).
    destruct (IH s1 H1) as (s2 & E2 & H2).
    exists s2. split; [|exact H2].
    now rewrite (bind_Some _ _ _ _ _ E1).
Qed.

(** C8. For both concrete builders the owned-product field is non-nil in
    the world the constructor returns; and from any world in which it is
    non-nil, every sequence of interface calls and [getProduct] calls runs
    without panic and ends in a world in which it is still non-nil. *)
Theorem owned_product_never_nil
    (w : World) (c : ptr CarBuilder) (m : ptr CarManualBuilder) (ops : list Op) :
  (exists c0 w', NewCarBuilder w = Some (c0, w') /\
                 CarBuilder_has_product c0 w' = true) /\
  (exists m0 w', NewCarManualBuilder w = Some (m0, w') /\
                 CarManualBuilder_has_product m0 w' = true) /\
  (CarBuilder_has_product c w = true ->
   exists w', run_all (CarBuilder_op c) ops w = Some (tt, w') /\
              CarBuilder_has_product c w' = true) /\
  (CarManualBuilder_has_product m w = true ->
   exists w', run_all (CarManualBuilder_op m) ops w = Some (tt, w') /\
              CarManualBuilder_has_product m w' = true).
Proof.
  repeat split.
  - eexists _, _. split; [apply NewCarBuilder_ok|].
    eapply CarBuilder_has_product_after_reset.
    simpl. now apply list_lookup_middle.
  - eexists _, _. split; [apply NewCarManualBuilder_ok|].
    eapply CarManualBuilder_has_product_after_reset.
    simpl. now apply list_lookup_middle.
  - apply (run_all_invariant (CarBuilder_op c)
             (fun w => CarBuilder_has_product c w = true)).
    intros o s. apply CarBuilder_op_has_product.
  - apply (run_all_invariant (CarManualBuilder_op m)
             (fun w => CarManualBuilder_has_product m w = true)).
    intros o s. apply CarManualBuilder_op_has_product.
Qed.

(** ** The sports-car profile on the concrete builders *)

Lemma constructSportsCar_CarBuilder d l b w :
  carBuilders w !! l = Some b ->
  constructSportsCar d (Ref l : ptr CarBuilder) w = Some (tt, after_CarBuilder_reset l w).
Proof.
  intros Hb. unfold constructSportsCar; simpl.
  now rewrite (bind_Some _ _ _ _ _ (CarBuilder_reset_ok l b w Hb)).
Qed.

Lemma constructSportsCar_CarManualBuilder d l b w :
  manualBuilders w !! l = Some b ->
  constructSportsCar d (Ref l : ptr CarManualBuilder) w =
  Some (tt, after_CarManualBuilder_reset l w).
Proof.
  intros Hb. unfold constructSportsCar; simpl.
  now rewrite (bind_Some _ _ _ _ _ (CarManualBuilder_reset_ok l b w Hb)).
Qed.

Lemma CarBuilder_owned_receiver c w x :
  CarBuilder_owned c w = Some x ->
  exists l b, c = Ref l /\ carBuilders w !! l = Some b /\ deref (car b) (cars w) = x.
Proof.
  unfold CarBuilder_owned. destruct c as [|l]; simpl; [discriminate|].
  destruct (carBuilders w !! l) as [b|] eqn:Hb; [|discriminate].
  intros [= <-]. eauto.
Qed.

Lemma CarManualBuilder_owned_receiver c w x :
  CarManualBuilder_owned c w = Some x ->
  exists l b, c = Ref l /\ manualBuilders w !! l = Some b /\
              deref (manual b) (manuals w) = x.
Proof.
  unfold CarManualBuilder_owned. destruct c as [|l]; simpl; [discriminate|].
  destruct (manualBuilders w !! l) as [b|] eqn:Hb; [|discriminate].
  intros [= <-]. eauto.
Qed.

(** ** Products are empty *)

Lemma Car_unique (x y : Car) : x = y.
Proof. now destruct x, y. Qed.

Lemma Manual_unique (x y : Manual) : x = y.
Proof. now destruct x, y. Qed.

Lemma invoke_CarBuilder_owned c k w x :
  CarBuilder_owned c w = Some (Some x) ->
  exists w', invoke k c w = Some (tt, w') /\ CarBuilder_owned c w' = Some (Some x).
Proof.
  intros Hown.
  destruct (CarBuilder_owned_receiver c w _ Hown) as (l & b & -> & Hb & _).
  destruct k as [| v | v | v | v]; simpl;
    try (exists w; split; [reflexivity|exact Hown]).
  exists (after_CarBuilder_reset l w). split.
  - now apply (CarBuilder_reset_ok l b).
  - rewrite (Car_unique x mkCar). now apply (CarBuilder_owned_after_reset l b).
Qed.

Lemma invoke_CarManualBuilder_owned c k w x :
  CarManualBuilder_owned c w = Some (Some x) ->
  exists w', invoke k c w = Some (tt, w') /\ CarManualBuilder_owned c w' = Some (Some x).
Proof.
  intros Hown.
  destruct (CarManualBuilder_owned_receiver c w _ Hown) as (l & b & -> & Hb & _).
  destruct k as [| v | v | v | v]; simpl;
    try (exists w; split; [reflexivity|exact Hown]).
  exists (after_CarManualBuilder_reset l w). split.
  - now apply (CarManualBuilder_reset_ok l b).
  - rewrite (Manual_unique x mkManual).
    now apply (CarManualBuilder_owned_after_reset l b).
Qed.

(** What [getProduct] returns from a builder that owns an allocated product:
    a pointer to a product equal to the one [newCar()] allocates next. *)
Lemma CarBuilder_getProduct_like_new c w x :
  CarBuilder_owned c w = Some (Some x) ->
  exists p w1 q w2,
    CarBuilder_getProduct c w = Some (p, w1) /\
    deref p (cars w1) = Some mkCar /\
    newCar w1 = Some (q, w2) /\
    deref p (cars w2) = deref q (cars w2).
Proof.
  intros Hown.
  destruct (CarBuilder_owned_receiver c w _ Hown) as (l & b & -> & Hb & Hx).
  assert (Hv : valid_ptr (car b) (cars w) = true) by now apply (deref_Some_valid _ _ x).
  assert (H1 : deref (car b) (cars (after_CarBuilder_reset l w)) = Some mkCar).
  { simpl. rewrite (deref_alloc_old _ _ _ Hv), Hx. f_equal. apply Car_unique. }
  eexists (car b), (after_CarBuilder_reset l w), _, _.
  split; [now apply CarBuilder_getProduct_ok|].
  split; [exact H1|]. split; [reflexivity|].
  cbn [cars with_cars]. rewrite deref_alloc_new.
  rewrite deref_alloc_old; [exact H1|]. now apply (deref_Some_valid _ _ mkCar).
Qed.

Lemma CarManualBuilder_getProduct_like_new c w x :
  CarManualBuilder_owned c w = Some (Some x) ->
  exists p w1 q w2,
    CarManualBuilder_getProduct c w = Some (p, w1) /\
    deref p (manuals w1) = Some mkManual /\
    newManual w1 = Some (q, w2) /\
    deref p (manuals w2) = deref q (manuals w2).
Proof.
  intros Hown.
  destruct (CarManualBuilder_owned_receiver c w _ Hown) as (l & b & -> & Hb & Hx).
  assert (H1 : deref (manual b) (manuals w) = Some mkManual).
  { rewrite Hx. f_equal. apply Manual_unique. }
  eexists (manual b), w, _, _.
  split; [now apply CarManualBuilder_getProduct_ok|].
  split; [exact H1|]. split; [reflexivity|].
  cbn [manuals with_manuals]. rewrite deref_alloc_new.
  rewrite deref_alloc_old; [exact H1|]. now apply (deref_Some_valid _ _ mkManual).
Qed.

(** C9. From a builder that owns an allocated product, after any sequence
    of calls of the interface (the setters in any number and order and with
    any arguments; [reset] is allowed too), and likewise after the whole
    sports-car profile run on any builder struct, [getProduct] returns a
    pointer to a product whose value is the empty struct, equal to the
    value of the product a call of [newCar()] (resp. [newManual()])
    allocates right after. *)
Theorem returned_product_like_new
    (d : ptr Director) (c : ptr CarBuilder) (m : ptr CarManualBuilder)
    (calls : list Call) (w : World) :
  (forall x, CarBuilder_owned c w = Some (Some x) ->
     exists p w1 q w2,
       (run_all (fun k => invoke k c) calls ;;; CarBuilder_getProduct c) w = Some (p, w1) /\
       deref p (cars w1) = Some mkCar /\
       newCar w1 = Some (q, w2) /\
       deref p (cars w2) = deref q (cars w2)) /\
  (forall b, deref c (carBuilders w) = Some b ->
     exists p w1 q w2,
       (constructSportsCar d c ;;; CarBuilder_getProduct c) w = Some (p, w1) /\
       deref p (cars w1) = Some mkCar /\
       newCar w1 = Some (q, w2) /\
       deref p (cars w2) = deref q (cars w2)) /\
  (forall x, CarManualBuilder_owned m w = Some (Some x) ->
     exists p w1 q w2,
       (run_all (fun k => invoke k m) calls ;;; CarManualBuilder_getProduct m) w
         = Some (p, w1) /\
       deref p (manuals w1) = Some mkManual /\
       newManual w1 = Some (q, w2) /\
       deref p (manuals w2) = deref q (manuals w2)) /\
  (forall b, deref m (manualBuilders w) = Some b ->
     exists p w1 q w2,
       (constructSportsCar d m ;;; CarManualBuilder_getProduct m) w = Some (p, w1) /\
       deref p (manuals w1) = Some mkManual /\
       newManual w1 = Some (q, w2) /\
       deref p (manuals w2) = deref q (manuals w2)).
Proof.
  repeat apply conj.
  - intros x Hown.
    destruct (run_all_invariant (fun k => invoke k c)
                (fun w => CarBuilder_owned c w = Some (Some x))
                (fun k s => invoke_CarBuilder_owned c k s x) calls w Hown)
      as (w0 & Hrun & Hown0).
    destruct (CarBuilder_getProduct_like_new c w0 x Hown0) as (p & w1 & q & w2 & Hg & H).
    exists p, w1, q, w2. split; [|exact H].
    now rewrite (bind_Some _ _ _ _ _ Hrun).
  - intros b Hb. destruct c as [|l]; [discriminate|]. simpl in Hb.
    destruct (CarBuilder_getProduct_like_new (Ref l) (after_CarBuilder_reset l w) mkCar
                (CarBuilder_owned_after_reset l b w Hb)) as (p & w1 & q & w2 & Hg & H).
    exists p, w1, q, w2. split; [|exact H].
    now rewrite (bind_Some _ _ _ _ _ (constructSportsCar_CarBuilder d l b w Hb)).
  - intros x Hown.
    destruct (run_all_invariant (fun k => invoke k m)
                (fun w => CarManualBuilder_owned m w = Some (Some x))
                (fun k s => invoke_CarManualBuilder_owned m k s x) calls w Hown)
      as (w0 & Hrun & Hown0).
    destruct (CarManualBuilder_getProduct_like_new m w0 x Hown0)
      as (p & w1 & q & w2 & Hg & H).
    exists p, w1, q, w2. split; [|exact H].
    now rewrite (bind_Some _ _ _ _ _ Hrun).
  - intros b Hb. destruct m as [|l]; [discriminate|]. simpl in Hb.
    destruct (CarManualBuilder_getProduct_like_new (Ref l)
                (after_CarManualBuilder_reset l w) mkManual
                (CarManualBuilder_owned_after_reset l b w Hb))
      as (p & w1 & q & w2 & Hg & H).
    exists p, w1, q, w2. split; [|exact H].
    now rewrite (bind_Some _ _ _ _ _ (constructSportsCar_CarManualBuilder d l b w Hb)).
Qed.

(** ** Running the profile twice *)

Lemma deref_update_other {T} (c : ptr T) (l : nat) (y : T) (h : list T) :
  c <> Ref l -> deref c (<[l := y]> h) = deref c h.
Proof.
  destruct c as [|l']; simpl; [reflexivity|].
  intros Hne. apply list_lookup_insert_ne. congruence.
Qed.

Lemma deref_beyond {T} (n : nat) (h : list T) :
  length h <= n -> deref (Ref n) h = None.
Proof. intros Hn. simpl. now apply lookup_ge_None. Qed.

(** C10. On every car builder struct and every manual builder struct,
    running [constructSportsCar] twice in a row ends, like running it once,
    with the builder owning a freshly reset product: allocated during the
    run, empty, and of the same value in both cases.  The two final worlds
    agree on every other builder and on the stores of the other types, and
    the products of the first are all present, unchanged, in the second.
    The two runs are compared up to the identity of the product allocated
    during the run: the second [reset] allocates one more product, which is
    the one the builder holds after two runs. *)
Theorem constructSportsCar_twice
    (d : ptr Director) (c : ptr CarBuilder) (m : ptr CarManualBuilder) (w : World) :
  (forall b, deref c (carBuilders w) = Some b ->
     exists w1 w2,
       constructSportsCar d c w = Some (tt, w1) /\
       (constructSportsCar d c ;;; constructSportsCar d c) w = Some (tt, w2) /\
       CarBuilder_owned c w2 = CarBuilder_owned c w1 /\
       CarBuilder_freshly_reset w c w1 /\
       CarBuilder_freshly_reset w c w2 /\
       (forall c', c' <> c -> deref c' (carBuilders w2) = deref c' (carBuilders w1)) /\
       cars w2 = cars w1 ++ [mkCar] /\
       manuals w2 = manuals w1 /\
       manualBuilders w2 = manualBuilders w1 /\
       directors w2 = directors w1) /\
  (forall b, deref m (manualBuilders w) = Some b ->
     exists w1 w2,
       constructSportsCar d m w = Some (tt, w1) /\
       (constructSportsCar d m ;;; constructSportsCar d m) w = Some (tt, w2) /\
       CarManualBuilder_owned m w2 = CarManualBuilder_owned m w1 /\
       CarManualBuilder_freshly_reset w m w1 /\
       CarManualBuilder_freshly_reset w m w2 /\
       (forall m', m' <> m -> deref m' (manualBuilders w2) = deref m' (manualBuilders w1)) /\
       manuals w2 = manuals w1 ++ [mkManual] /\
       cars w2 = cars w1 /\
       carBuilders w2 = carBuilders w1 /\
       directors w2 = directors w1).
Proof.
  split.
  - intros b Hb. destruct c as [|l]; [discriminate|]. simpl in Hb.
    set (w1 := after_CarBuilder_reset l w).
    pose proof (after_CarBuilder_reset_builder l b w Hb) as Hb1. fold w1 in Hb1.
    pose proof (after_CarBuilder_reset_builder l _ w1 Hb1) as Hb2.
    exists w1, (after_CarBuilder_reset l w1).
    split; [now apply (constructSportsCar_CarBuilder d l b)|].
    split.
    { rewrite (bind_Some _ _ _ _ _ (constructSportsCar_CarBuilder d l b w Hb)).
      apply (constructSportsCar_CarBuilder d l _ w1 Hb1). }
    split.
    { rewrite (CarBuilder_owned_after_reset l _ w1 Hb1).
      symmetry. apply (CarBuilder_owned_after_reset l b w Hb). }
    split.
    { exists (Ref (length (cars w))). split; [exact Hb1|].
      split; [apply deref_unallocated | apply deref_alloc_new]. }
    split.
    { exists (Ref (length (cars w1))). split; [exact Hb2|]. split.
      - apply deref_beyond. subst w1; simpl. rewrite length_app. lia.
      - apply (deref_alloc_new (cars w1)). }
    split; [|now repeat split].
    intros c' Hne. simpl carBuilders. now rewrite deref_update_other.
  - intros b Hb. destruct m as [|l]; [discriminate|]. simpl in Hb.
    set (w1 := after_CarManualBuilder_reset l w).
    pose proof (after_CarManualBuilder_reset_builder l b w Hb) as Hb1. fold w1 in Hb1.
    pose proof (after_CarManualBuilder_reset_builder l _ w1 Hb1) as Hb2.
    exists w1, (after_CarManualBuilder_reset l w1).
    split; [now apply (constructSportsCar_CarManualBuilder d l b)|].
    split.
    { rewrite (bind_Some _ _ _ _ _ (constructSportsCar_CarManualBuilder d l b w Hb)).
      apply (constructSportsCar_CarManualBuilder d l _ w1 Hb1). }
    split.
    { rewrite (CarManualBuilder_owned_after_reset l _ w1 Hb1).
      symmetry. apply (CarManualBuilder_owned_after_reset l b w Hb). }
    split.
    { exists (Ref (length (manuals w))). split; [exact Hb1|].
      split; [apply deref_unallocated | apply deref_alloc_new]. }
    split.
    { exists (Ref (length (manuals w1))). split; [exact Hb2|]. split.
      - apply deref_beyond. subst w1; simpl. rewrite length_app. lia.
      - apply (deref_alloc_new (manuals w1)). }
    split; [|now repeat split].
    intros m' Hne. simpl manualBuilders. now rewrite deref_update_other.
Qed.

(** ** The director keeps no state *)

(** C7. The outcome of [constructSportsCar] does not depend on the director
    it is called on nor on what any director did before: two directors,
    each after a history of its own, applied to a builder in equal states
    give equal results.  On the concrete builders the same holds across
    worlds and receivers: builders that own equal products own equal
    products afterwards. *)
Theorem Director_is_stateless
    {R S} `{!Builder R S}
    (d1 d2 : ptr Director) (h1 h2 : list (DirectorCall R)) (t1 t2 s1 s2 : S) (builder : R)
    (c1 c2 : ptr CarBuilder) (m1 m2 : ptr CarManualBuilder) (w1 w2 : World) :
  (run_all (Director_call d1) h1 t1 = Some (tt, s1) ->
   run_all (Director_call d2) h2 t2 = Some (tt, s2) ->
   s1 = s2 ->
   constructSportsCar d1 builder s1 = constructSportsCar d2 builder s2) /\
  (forall x, CarBuilder_owned c1 w1 = Some x -> CarBuilder_owned c2 w2 = Some x ->
     exists w1' w2',
       constructSportsCar d1 c1 w1 = Some (tt, w1') /\
       constructSportsCar d2 c2 w2 = Some (tt, w2') /\
       CarBuilder_owned c1 w1' = CarBuilder_owned c2 w2') /\
  (forall x, CarManualBuilder_owned m1 w1 = Some x -> CarManualBuilder_owned m2 w2 = Some x ->
     exists w1' w2',
       constructSportsCar d1 m1 w1 = Some (tt, w1') /\
       constructSportsCar d2 m2 w2 = Some (tt, w2') /\
       CarManualBuilder_owned m1 w1' = CarManualBuilder_owned m2 w2').
Proof.
  repeat apply conj.
  - intros _ _ ->. reflexivity.
  - intros x H1 H2.
    destruct (CarBuilder_owned_receiver c1 w1 x H1) as (l1 & b1 & -> & Hb1 & _).
    destruct (CarBuilder_owned_receiver c2 w2 x H2) as (l2 & b2 & -> & Hb2 & _).
    exists (after_CarBuilder_reset l1 w1), (after_CarBuilder_reset l2 w2).
    split; [now apply (constructSportsCar_CarBuilder d1 l1 b1)|].
    split; [now apply (constructSportsCar_CarBuilder d2 l2 b2)|].
    rewrite (CarBuilder_owned_after_reset l1 b1 w1 Hb1).
    now rewrite (CarBuilder_owned_after_reset l2 b2 w2 Hb2).
  - intros x H1 H2.
    destruct (CarManualBuilder_owned_receiver m1 w1 x H1) as (l1 & b1 & -> & Hb1 & _).
    destruct (CarManualBuilder_owned_receiver m2 w2 x H2) as (l2 & b2 & -> & Hb2 & _).
    exists (after_CarManualBuilder_reset l1 w1), (after_CarManualBuilder_reset l2 w2).
    split; [now apply (constructSportsCar_CarManualBuilder d1 l1 b1)|].
    split; [now apply (constructSportsCar_CarManualBuilder d2 l2 b2)|].
    rewrite (CarManualBuilder_owned_after_reset l1 b1 w1 Hb1).
    now rewrite (CarManualBuilder_owned_after_reset l2 b2 w2 Hb2).
Qed.

(** * Concrete runs *)

Example NewCarBuilder_empty :
  NewCarBuilder emptyWorld = Some (Ref 0, car_world).
Proof. reflexivity. Qed.

Example NewCarManualBuilder_empty :
  NewCarManualBuilder emptyWorld = Some (Ref 0, manual_world).
Proof. reflexivity. Qed.

(** Scenario 1: a car builder, the sports-car profile, [getProduct] twice. *)
Example scenario_car :
  (d <- NewDirector ;;
   builder <- NewCarBuilder ;;
   constructSportsCar d builder ;;;
   car1 <- CarBuilder_getProduct builder ;;
   car2 <- CarBuilder_getProduct builder ;;
   ret (car1, car2)) emptyWorld
  = Some ((Ref 1, Ref 2),
          mkWorld [mkCar; mkCar; mkCar; mkCar] [] [mkCarBuilder (Ref 3)] [] [mkDirector]).
Proof. reflexivity. Qed.

(** Scenario 2: a manual builder, the same profile, [getProduct] twice. *)
Example scenario_manual :
  (d <- NewDirector ;;
   builder <- NewCarManualBuilder ;;
   constructSportsCar d builder ;;;
   manual1 <- CarManualBuilder_getProduct builder ;;
   manual2 <- CarManualBuilder_getProduct builder ;;
   ret (manual1, manual2)) emptyWorld
  = Some ((Ref 1, Ref 1),
          mkWorld [] [mkManual; mkManual] [] [mkCarManualBuilder (Ref 1)] [mkDirector]).
Proof. reflexivity. Qed.

(** The recording double around a car builder. *)
Example spy_on_car_builder :
  constructSportsCar Nil (spyOn (Ref 0 : ptr CarBuilder)) (car_world, [])
  = Some (tt, (mkWorld [mkCar; mkCar] [] [mkCarBuilder (Ref 1)] [] [],
               [CallReset; CallSetSeats [AInt 2]; CallSetEngine [AString "SportEngine"];
                CallSetTripComputer [ABool true]; CallSetGPS [ABool true]])).
Proof. reflexivity. Qed.

(** A nil receiver: [reset] and [getProduct] panic, the setters do not. *)
Example nil_receiver :
  CarBuilder_reset Nil car_world = None /\
  CarBuilder_getProduct Nil car_world = None /\
  CarManualBuilder_getProduct Nil car_world = None /\
  CarBuilder_setSeats Nil [AInt 2] car_world = Some (tt, car_world).
Proof. repeat split. Qed.

(** ** Instances of the conditional statements *)



Lemma CarManualBuilder_getProduct_keeps_product_witness :
  (p1 <- CarManualBuilder_getProduct (Ref 0) ;;
   run_all (fun k => invoke k (Ref 0 : ptr CarManualBuilder))
     [CallSetSeats [AInt 2]; CallSetGPS [ABool true]] ;;;
   p2 <- CarManualBuilder_getProduct (Ref 0) ;;
   ret (p1, p2)) manual_world = Some ((Ref 0, Ref 0), manual_world).
Proof.
  exact (proj2 (CarManualBuilder_getProduct_keeps_product
                  (Ref 0) manual_world (mkCarManualBuilder (Ref 0))
                  [CallSetSeats [AInt 2]; CallSetGPS [ABool true]] eq_refl eq_refl)).
Defined.

Lemma owned_product_never_nil_witness :
  (exists w', run_all (CarBuilder_op (Ref 0))
                [OpCall (CallSetSeats [AInt 2]); OpGetProduct; OpCall CallReset] both_world
              = Some (tt, w') /\
              CarBuilder_has_product (Ref 0) w' = true) /\
  (exists w', run_all (CarManualBuilder_op (Ref 0))
                [OpCall (CallSetSeats [AInt 2]); OpGetProduct; OpCall CallReset] both_world
              = Some (tt, w') /\
              CarManualBuilder_has_product (Ref 0) w' = true).
Proof.
  destruct (owned_product_never_nil both_world (Ref 0) (Ref 0)
              [OpCall (CallSetSeats [AInt 2]); OpGetProduct; OpCall CallReset])
    as (_ & _ & Hc & Hm).
  split; [apply Hc | apply Hm]; reflexivity.
Defined.

Lemma returned_product_like_new_witness :
  (exists p w1, (run_all (fun k => invoke k (Ref 0 : ptr CarBuilder))
                   [CallSetSeats [AInt 4]; CallSetGPS [ABool false]] ;;;
                 CarBuilder_getProduct (Ref 0)) both_world = Some (p, w1) /\
                deref p (cars w1) = Some mkCar) /\
  (exists p w1, (constructSportsCar Nil (Ref 0 : ptr CarBuilder) ;;;
                 CarBuilder_getProduct (Ref 0)) both_world = Some (p, w1) /\
                deref p (cars w1) = Some mkCar) /\
  (exists p w1, (run_all (fun k => invoke k (Ref 0 : ptr CarManualBuilder))
                   [CallSetSeats [AInt 4]; CallSetGPS [ABool false]] ;;;
                 CarManualBuilder_getProduct (Ref 0)) both_world = Some (p, w1) /\
                deref p (manuals w1) = Some mkManual) /\
  (exists p w1, (constructSportsCar Nil (Ref 0 : ptr CarManualBuilder) ;;;
                 CarManualBuilder_getProduct (Ref 0)) both_world = Some (p, w1) /\
                deref p (manuals w1) = Some mkManual).
Proof.
  destruct (returned_product_like_new Nil (Ref 0) (Ref 0)
              [CallSetSeats [AInt 4]; CallSetGPS [ABool false]] both_world)
    as (H1 & H2 & H3 & H4).
  repeat apply conj.
  - destruct (H1 mkCar eq_refl) as (p & w1 & _ & _ & E & D & _). now exists p, w1.
  - destruct (H2 (mkCarBuilder (Ref 0)) eq_refl) as (p & w1 & _ & _ & E & D & _).
    now exists p, w1.
  - destruct (H3 mkManual eq_refl) as (p & w1 & _ & _ & E & D & _). now exists p, w1.
  - destruct (H4 (mkCarManualBuilder (Ref 0)) eq_refl) as (p & w1 & _ & _ & E & D & _).
    now exists p, w1.
Defined.

Lemma constructSportsCar_twice_witness :
  (exists w1 w2,
      constructSportsCar Nil (Ref 0 : ptr CarBuilder) both_world = Some (tt, w1) /\
      (constructSportsCar Nil (Ref 0 : ptr CarBuilder) ;;;
       constructSportsCar Nil (Ref 0 : ptr CarBuilder)) both_world = Some (tt, w2) /\
      CarBuilder_owned (Ref 0) w2 = CarBuilder_owned (Ref 0) w1) /\
  (exists w1 w2,
      constructSportsCar Nil (Ref 0 : ptr CarManualBuilder) both_world = Some (tt, w1) /\
      (constructSportsCar Nil (Ref 0 : ptr CarManualBuilder) ;;;
       constructSportsCar Nil (Ref 0 : ptr CarManualBuilder)) both_world = Some (tt, w2) /\
      CarManualBuilder_owned (Ref 0) w2 = CarManualBuilder_owned (Ref 0) w1).
Proof.
  destruct (constructSportsCar_twice Nil (Ref 0) (Ref 0) both_world) as (Hc & Hm).
  split.
  - destruct (Hc (mkCarBuilder (Ref 0)) eq_refl) as (w1 & w2 & E1 & E2 & E3 & _).
    now exists w1, w2.
  - destruct (Hm (mkCarManualBuilder (Ref 0)) eq_refl) as (w1 & w2 & E1 & E2 & E3 & _).
    now exists w1, w2.
Defined.

Lemma Director_is_stateless_witness :
  constructSportsCar Nil (Ref 0 : ptr CarBuilder) both_world
  = constructSportsCar (Ref 7) (Ref 0 : ptr CarBuilder) both_world /\
  (exists w1' w2',
      constructSportsCar Nil (Ref 0 : ptr CarBuilder) car_world = Some (tt, w1') /\
      constructSportsCar (Ref 7) (Ref 0 : ptr CarBuilder) both_world = Some (tt, w2') /\
      CarBuilder_owned (Ref 0) w1' = CarBuilder_owned (Ref 0) w2') /\
  (exists w1' w2',
      constructSportsCar Nil (Ref 0 : ptr CarManualBuilder) manual_world = Some (tt, w1') /\
      constructSportsCar (Ref 7) (Ref 0 : ptr CarManualBuilder) both_world
        = Some (tt, w2') /\
      CarManualBuilder_owned (Ref 0) w1' = CarManualBuilder_owned (Ref 0) w2').
Proof.
  repeat apply conj.
  - refine (proj1 (Director_is_stateless Nil (Ref 7)
                     [SUV (Ref 0 : ptr CarBuilder)] []
                     both_world both_world both_world both_world (Ref 0)
                     Nil Nil Nil Nil emptyWorld emptyWorld) _ _ _); reflexivity.
  - refine (proj1 (proj2 (Director_is_stateless (R := ptr CarBuilder) Nil (Ref 7)
                     [] [] emptyWorld emptyWorld emptyWorld emptyWorld Nil
                     (Ref 0) (Ref 0) Nil Nil car_world both_world))
              (Some mkCar) _ _); reflexivity.
  - refine (proj2 (proj2 (Director_is_stateless (R := ptr CarBuilder) Nil (Ref 7)
                     [] [] emptyWorld emptyWorld emptyWorld emptyWorld Nil
                     Nil Nil (Ref 0) (Ref 0) manual_world both_world))
              (Some mkManual) _ _); reflexivity.
Defined.

(** * The rest of the package *)

(** ** When the builders panic *)

Lemma CarBuilder_reset_unallocated c w :
  deref c (carBuilders w) = None -> CarBuilder_reset c w = None.
Proof.
  destruct c as [|l]; [reflexivity|]. simpl. intros Hc.
  unfold CarBuilder_reset, bind, newCar, CarBuilder_set_car; simpl. now rewrite Hc.
Qed.

Lemma CarBuilder_getProduct_unallocated c w :
  deref c (carBuilders w) = None -> CarBuilder_getProduct c w = None.
Proof. intros Hc. unfold CarBuilder_getProduct, bind, CarBuilder_car. now rewrite Hc. Qed.

Lemma CarManualBuilder_reset_unallocated c w :
  deref c (manualBuilders w) = None -> CarManualBuilder_reset c w = None.
Proof.
  destruct c as [|l]; [reflexivity|]. simpl. intros Hc.
  unfold CarManualBuilder_reset, bind, newManual, CarManualBuilder_set_manual; simpl.
  now rewrite Hc.
Qed.

Lemma CarManualBuilder_getProduct_unallocated c w :
  deref c (manualBuilders w) = None -> CarManualBuilder_getProduct c w = None.
Proof.
  intros Hc. unfold CarManualBuilder_getProduct, CarManualBuilder_manual. now rewrite Hc.
Qed.

Lemma CarBuilder_op_setter c o w :
  is_setter_op o = true -> CarBuilder_op c o w = Some (tt, w).
Proof. destruct o as [[| v | v | v | v]|]; simpl; now try discriminate. Qed.

Lemma CarManualBuilder_op_setter c o w :
  is_setter_op o = true -> CarManualBuilder_op c o w = Some (tt, w).
Proof. destruct o as [[| v | v | v | v]|]; simpl; now try discriminate. Qed.

(** What an operation of a car builder does when it returns: nothing for
    a setter, the effect of [reset] for [reset] and [getProduct]. *)
Lemma CarBuilder_op_inv c o w w' :
  CarBuilder_op c o w = Some (tt, w') ->
  (allocates_car o = false /\ w' = w) \/
  (allocates_car o = true /\
   exists l b, c = Ref l /\ carBuilders w !! l = Some b /\ w' = after_CarBuilder_reset l w).
Proof.
  destruct (is_setter_op o) eqn:Hs.
  - rewrite (CarBuilder_op_setter c o w Hs). intros [= <-]. left.
    unfold allocates_car. now rewrite Hs.
  - intros Hop. right. split; [unfold allocates_car; now rewrite Hs|].
    destruct (deref c (carBuilders w)) as [b|] eqn:Hc.
    + destruct c as [|l]; [discriminate|]. simpl in Hc. exists l, b.
      split; [reflexivity|]. split; [exact Hc|].
      destruct o as [[| v | v | v | v]|]; try discriminate; simpl in Hop.
      * rewrite (CarBuilder_reset_ok l b w Hc) in Hop. now injection Hop as <-.
      * rewrite (bind_Some _ _ _ _ _ (CarBuilder_getProduct_ok l b w Hc)) in Hop.
        now injection Hop as <-.
    + destruct o as [[| v | v | v | v]|]; try discriminate; simpl in Hop.
      * now rewrite (CarBuilder_reset_unallocated c w Hc) in Hop.
      * unfold bind in Hop. now rewrite (CarBuilder_getProduct_unallocated c w Hc) in Hop.
Qed.

Lemma CarManualBuilder_op_inv c o w w' :
  CarManualBuilder_op c o w = Some (tt, w') ->
  (allocates_manual o = false /\ w' = w) \/
  (allocates_manual o = true /\
   exists l b, c = Ref l /\ manualBuilders w !! l = Some b /\
               w' = after_CarManualBuilder_reset l w).
Proof.
  destruct o as [[| v | v | v | v]|]; simpl;
    try (intros [= <-]; left; now split).
  - intros Hop. right. split; [reflexivity|].
    destruct (deref c (manualBuilders w)) as [b|] eqn:Hc.
    + destruct c as [|l]; [discriminate|]. simpl in Hc. exists l, b.
      rewrite (CarManualBuilder_reset_ok l b w Hc) in Hop. now injection Hop as <-.
    + now rewrite (CarManualBuilder_reset_unallocated c w Hc) in Hop.
  - intros Hop. left. split; [reflexivity|].
    destruct (deref c (manualBuilders w)) as [b|] eqn:Hc.
    + rewrite (bind_Some _ _ _ _ _ (CarManualBuilder_getProduct_ok c b w Hc)) in Hop.
      now injection Hop as <-.
    + unfold bind in Hop.
      now rewrite (CarManualBuilder_getProduct_unallocated c w Hc) in Hop.
Qed.

Lemma CarBuilder_op_allocated c o w :
  is_Some (deref c (carBuilders w)) ->
  exists w', CarBuilder_op c o w = Some (tt, w') /\ is_Some (deref c (carBuilders w')).
Proof.
  intros [b Hc]. destruct (is_setter_op o) eqn:Hs.
  - exists w. split; [now apply CarBuilder_op_setter | now exists b].
  - destruct c as [|l]; [discriminate|]. simpl in Hc.
    exists (after_CarBuilder_reset l w). split.
    + destruct o as [[| v | v | v | v]|]; try discriminate; simpl.
      * now apply (CarBuilder_reset_ok l b).
      * now rewrite (bind_Some _ _ _ _ _ (CarBuilder_getProduct_ok l b w Hc)).
    + eexists. apply (after_CarBuilder_reset_builder l b w Hc).
Qed.

Lemma CarManualBuilder_op_allocated c o w :
  is_Some (deref c (manualBuilders w)) ->
  exists w', CarManualBuilder_op c o w = Some (tt, w') /\
             is_Some (deref c (manualBuilders w')).
Proof.
  intros [b Hc].
  destruct o as [[| v | v | v | v]|]; simpl;
    try (exists w; split; [reflexivity | now exists b]).
  - destruct c as [|l]; [discriminate|]. simpl in Hc.
    exists (after_CarManualBuilder_reset l w). split.
    + now apply (CarManualBuilder_reset_ok l b).
    + eexists. apply (after_CarManualBuilder_reset_builder l b w Hc).
  - exists w. split; [|now exists b].
    now rewrite (bind_Some _ _ _ _ _ (CarManualBuilder_getProduct_ok c b w Hc)).
Qed.

(** A sequence of operations on a car builder runs without panic exactly
    when the receiver points to a builder struct or every operation is a
    setter: [reset] and [getProduct] dereference the receiver, the setters
    never do. *)
Theorem CarBuilder_ops_return_iff (c : ptr CarBuilder) (ops : list Op) (w : World) :
  is_Some (run_all (CarBuilder_op c) ops w) <->
  is_Some (deref c (carBuilders w)) \/ forallb is_setter_op ops = true.
Proof.
  split.
  - revert w. induction ops as [|o ops IH]; intros w Hrun; [now right|].
    destruct (deref c (carBuilders w)) as [b|] eqn:Hc; [left; now exists b|].
    right. simpl in *. destruct (is_setter_op o) eqn:Hs; simpl.
    + rewrite (bind_Some _ _ _ _ _ (CarBuilder_op_setter c o w Hs)) in Hrun.
      destruct (IH w Hrun) as [[b Hb]|Hall]; [congruence | exact Hall].
    + exfalso. destruct Hrun as [[[] w'] Hrun]. unfold bind in Hrun.
      destruct (CarBuilder_op c o w) as [[[] w1]|] eqn:Hop; [|discriminate].
      destruct (CarBuilder_op_inv c o w w1 Hop) as [[Ha _]|(_ & l & b & -> & Hb & _)].
      * unfold allocates_car in Ha. rewrite Hs in Ha. discriminate.
      * simpl in Hc. congruence.
  - intros [Hc|Hall].
    + destruct (run_all_invariant (CarBuilder_op c)
                  (fun w => is_Some (deref c (carBuilders w)))
                  (fun o s => CarBuilder_op_allocated c o s) ops w Hc) as (w' & E & _).
      rewrite E. now eexists.
    + exists (tt, w). revert Hall. induction ops as [|o ops IH]; simpl; [reflexivity|].
      intros Hall. apply andb_prop in Hall as [Ho Hrest].
      rewrite (bind_Some _ _ _ _ _ (CarBuilder_op_setter c o w Ho)). exact (IH Hrest).
Qed.

(** The same for a manual builder: [getProduct] reads the receiver's field
    and panics on a nil receiver although it does not reset. *)
Theorem CarManualBuilder_ops_return_iff
    (c : ptr CarManualBuilder) (ops : list Op) (w : World) :
  is_Some (run_all (CarManualBuilder_op c) ops w) <->
  is_Some (deref c (manualBuilders w)) \/ forallb is_setter_op ops = true.
Proof.
  split.
  - revert w. induction ops as [|o ops IH]; intros w Hrun; [now right|].
    destruct (deref c (manualBuilders w)) as [b|] eqn:Hc; [left; now exists b|].
    right. simpl in *. destruct (is_setter_op o) eqn:Hs; simpl.
    + rewrite (bind_Some _ _ _ _ _ (CarManualBuilder_op_setter c o w Hs)) in Hrun.
      destruct (IH w Hrun) as [[b Hb]|Hall]; [congruence | exact Hall].
    + exfalso. destruct Hrun as [[[] w'] Hrun]. unfold bind in Hrun.
      destruct o as [[| v | v | v | v]|]; try discriminate; simpl in Hrun.
      * now rewrite (CarManualBuilder_reset_unallocated c w Hc) in Hrun.
      * unfold bind in Hrun.
        now rewrite (CarManualBuilder_getProduct_unallocated c w Hc) in Hrun.
  - intros [Hc|Hall].
    + destruct (run_all_invariant (CarManualBuilder_op c)
                  (fun w => is_Some (deref c (manualBuilders w)))
                  (fun o s => CarManualBuilder_op_allocated c o s) ops w Hc)
        as (w' & E & _).
      rewrite E. now eexists.
    + exists (tt, w). revert Hall. induction ops as [|o ops IH]; simpl; [reflexivity|].
      intros Hall. apply andb_prop in Hall as [Ho Hrest].
      rewrite (bind_Some _ _ _ _ _ (CarManualBuilder_op_setter c o w Ho)).
      exact (IH Hrest).
Qed.

(** ** What a sequence of operations changes *)

Lemma deref_alloc_keeps {T} (p : ptr T) (h : list T) (y x : T) :
  deref p h = Some x -> deref p (h ++ [y]) = Some x.
Proof.
  intros Hx. rewrite deref_alloc_old; [exact Hx|]. now apply (deref_Some_valid _ _ x).
Qed.

(** A sequence of operations on the car builder [c] that returns touches
    nothing but [c] and its product: every car that existed still has its
    value, no builder struct is created, every car builder other than [c]
    is as it was, and so are the manuals, the manual builders and the
    directors. *)
Theorem CarBuilder_ops_frame
    (c : ptr CarBuilder) (ops : list Op) (w w' : World)
    (Hrun : run_all (CarBuilder_op c) ops w = Some (tt, w')) :
  (forall p x, deref p (cars w) = Some x -> deref p (cars w') = Some x) /\
  length (carBuilders w') = length (carBuilders w) /\
  (forall c', c' <> c -> deref c' (carBuilders w') = deref c' (carBuilders w)) /\
  manuals w' = manuals w /\
  manualBuilders w' = manualBuilders w /\
  directors w' = directors w.
Proof.
  revert w Hrun. induction ops as [|o ops IH]; intros w Hrun; simpl in Hrun.
  - injection Hrun as <-. now repeat split.
  - unfold bind in Hrun.
    destruct (CarBuilder_op c o w) as [[[] w1]|] eqn:Hop; [|discriminate].
    destruct (IH w1 Hrun) as (Hcars & Hlen & Hothers & Hm & Hmb & Hd).
    destruct (CarBuilder_op_inv c o w w1 Hop)
      as [[_ ->]|(_ & l & b & -> & Hb & ->)].
    + now repeat split.
    + simpl in Hcars, Hlen, Hm, Hmb, Hd. repeat split; try assumption.
      * intros p x Hx. apply Hcars. now apply deref_alloc_keeps.
      * now rewrite Hlen, length_insert.
      * intros c' Hne. rewrite (Hothers c' Hne). simpl carBuilders.
        now apply deref_update_other.
Qed.

(** The same for the manual builder [c]: a sequence of its operations that
    returns touches nothing but [c] and its product. *)
Theorem CarManualBuilder_ops_frame
    (c : ptr CarManualBuilder) (ops : list Op) (w w' : World)
    (Hrun : run_all (CarManualBuilder_op c) ops w = Some (tt, w')) :
  (forall p x, deref p (manuals w) = Some x -> deref p (manuals w') = Some x) /\
  length (manualBuilders w') = length (manualBuilders w) /\
  (forall c', c' <> c -> deref c' (manualBuilders w') = deref c' (manualBuilders w)) /\
  cars w' = cars w /\
  carBuilders w' = carBuilders w /\
  directors w' = directors w.
Proof.
  revert w Hrun. induction ops as [|o ops IH]; intros w Hrun; simpl in Hrun.
  - injection Hrun as <-. now repeat split.
  - unfold bind in Hrun.
    destruct (CarManualBuilder_op c o w) as [[[] w1]|] eqn:Hop; [|discriminate].
    destruct (IH w1 Hrun) as (Hmanuals & Hlen & Hothers & Hc & Hcb & Hd).
    destruct (CarManualBuilder_op_inv c o w w1 Hop)
      as [[_ ->]|(_ & l & b & -> & Hb & ->)].
    + now repeat split.
    + simpl in Hmanuals, Hlen, Hc, Hcb, Hd. repeat split; try assumption.
      * intros p x Hx. apply Hmanuals. now apply deref_alloc_keeps.
      * now rewrite Hlen, length_insert.
      * intros c' Hne. rewrite (Hothers c' Hne). simpl manualBuilders.
        now apply deref_update_other.
Qed.

(** ** The profile is a reset *)

Lemma bind_ret_tt {S} (m : M S unit) (s : S) :
  bind m (fun _ => ret tt) s = m s.
Proof. unfold bind, ret. now destruct (m s) as [[[] s']|]. Qed.

Lemma constructSportsCar_CarBuilder_reset d (c : ptr CarBuilder) w :
  constructSportsCar d c w = CarBuilder_reset c w.
Proof. unfold constructSportsCar; simpl. apply bind_ret_tt. Qed.

Lemma constructSportsCar_CarManualBuilder_reset d (m : ptr CarManualBuilder) w :
  constructSportsCar d m w = CarManualBuilder_reset m w.
Proof. unfold constructSportsCar; simpl. apply bind_ret_tt. Qed.

Lemma constructSportsCar_OfCarBuilder d (c : ptr CarBuilder) w :
  constructSportsCar d (OfCarBuilder c) w = CarBuilder_reset c w.
Proof. unfold constructSportsCar; simpl. apply bind_ret_tt. Qed.

Lemma constructSportsCar_OfCarManualBuilder d (m : ptr CarManualBuilder) w :
  constructSportsCar d (OfCarManualBuilder m) w = CarManualBuilder_reset m w.
Proof. unfold constructSportsCar; simpl. apply bind_ret_tt. Qed.

(** On both concrete builders, called directly or through an interface
    value, [constructSportsCar] does exactly what one [reset] does, in
    every world and for every receiver, panics included; on the nil
    interface it panics. *)
Theorem constructSportsCar_is_reset
    (d : ptr Director) (c : ptr CarBuilder) (m : ptr CarManualBuilder) (w : World) :
  constructSportsCar d c w = CarBuilder_reset c w /\
  constructSportsCar d m w = CarManualBuilder_reset m w /\
  constructSportsCar d (OfCarBuilder c) w = CarBuilder_reset c w /\
  constructSportsCar d (OfCarManualBuilder m) w = CarManualBuilder_reset m w /\
  constructSportsCar d NilBuilder w = None.
Proof.
  split; [apply constructSportsCar_CarBuilder_reset|].
  split; [apply constructSportsCar_CarManualBuilder_reset|].
  split; [apply constructSportsCar_OfCarBuilder|].
  split; [apply constructSportsCar_OfCarManualBuilder|].
  reflexivity.
Qed.

(** ** getProduct, many times *)

(** The results of [n] calls of [getProduct] on the car builder at [l]:
    the car held at the start, then the cars allocated by the calls. *)
Lemma CarBuilder_getProduct_times_results l n : forall w b,
  carBuilders w !! l = Some b ->
  exists w',
    times n (CarBuilder_getProduct (Ref l)) w =
      Some (take n (car b :: (Ref <$> seq (length (cars w)) n)), w') /\
    carBuilders w' !! l =
      (car b :: (Ref <$> seq (length (cars w)) n)) !! n ≫= (fun p => Some (mkCarBuilder p)) /\
    length (cars w') = length (cars w) + n.
Proof.
  induction n as [|n IH]; intros w b Hb.
  - exists w. simpl. rewrite Hb. destruct b. repeat split. lia.
  - pose proof (after_CarBuilder_reset_builder l b w Hb) as Hb1.
    destruct (IH (after_CarBuilder_reset l w) _ Hb1) as (w' & Hrun & Hheld & Hlen).
    exists w'. simpl cars in Hrun, Hheld, Hlen.
    rewrite length_app in Hrun, Hheld, Hlen. simpl in Hrun, Hheld, Hlen.
    rewrite Nat.add_1_r in Hrun, Hheld, Hlen.
    split; [|split].
    + cbn [times]. rewrite (bind_Some _ _ _ _ _ (CarBuilder_getProduct_ok l b w Hb)).
      rewrite (bind_Some _ _ _ _ _ Hrun). reflexivity.
    + rewrite Hheld. reflexivity.
    + lia.
Qed.

(** [n] calls of [getProduct] in a row on a car builder run without
    panic.  The first result is the pointer the builder held at the start;
    every later result is a non-nil pointer to an empty car; and after at
    least one call the builder holds a non-nil pointer to an empty car. *)
Theorem CarBuilder_getProduct_times
    (c : ptr CarBuilder) (w : World) (b : CarBuilder) (n : nat)
    (Hc : deref c (carBuilders w) = Some b) :
  exists ps w' q,
    times n (CarBuilder_getProduct c) w = Some (ps, w') /\
    length ps = n /\
    head ps = (if n is 0 then None else Some (car b)) /\
    (forall p, p ∈ tail ps -> p <> Nil /\ deref p (cars w') = Some mkCar) /\
    deref c (carBuilders w') = Some (mkCarBuilder q) /\
    (n <> 0 -> q <> Nil /\ deref q (cars w') = Some mkCar).
Proof.
  destruct c as [|l]; [discriminate|]. simpl in Hc.
  destruct (CarBuilder_getProduct_times_results l n w b Hc) as (w' & Hrun & Hheld & Hlen).
  set (L := length (cars w)) in *.
  set (full := car b :: (Ref <$> seq L n)) in *.
  assert (Hfull : length full = Datatypes.S n)
    by (unfold full; simpl; now rewrite length_fmap, length_seq).
  assert (Hnew : forall k, L <= k < L + n ->
                           (Ref k : ptr Car) <> Nil /\ deref (Ref k) (cars w') = Some mkCar).
  { intros k Hk. split; [discriminate|]. simpl.
    destruct (lookup_lt_is_Some_2 (cars w') k) as [x Hx]; [lia|].
    rewrite Hx. f_equal. apply zero_size. }
  destruct (lookup_lt_is_Some_2 full n) as [q Hq]; [lia|].
  rewrite Hq in Hheld. simpl in Hheld.
  exists (take n full), w', q. repeat apply conj.
  - exact Hrun.
  - rewrite length_take. lia.
  - destruct n; reflexivity.
  - intros p Hp. destruct n as [|n]; [now apply elem_of_nil in Hp|].
    change (p ∈ take n (Ref <$> seq L (Datatypes.S n) : list (ptr Car))) in Hp.
    apply elem_of_take in Hp as (i & Hi & _).
    apply list_elem_of_lookup_2 in Hi.
    apply list_elem_of_fmap in Hi as (k & -> & Hk). apply elem_of_seq in Hk.
    now apply Hnew.
  - exact Hheld.
  - intros Hn. destruct n as [|n]; [now contradict Hn|].
    change ((Ref <$> seq L (Datatypes.S n) : list (ptr Car)) !! n = Some q) in Hq.
    apply list_elem_of_lookup_2 in Hq.
    apply list_elem_of_fmap in Hq as (k & -> & Hk). apply elem_of_seq in Hk.
    now apply Hnew.
Qed.

(** [n] calls of [getProduct] in a row on a manual builder return [n]
    times the manual the builder holds and leave the world as it was. *)
Theorem CarManualBuilder_getProduct_times
    (c : ptr CarManualBuilder) (w : World) (b : CarManualBuilder) (n : nat)
    (Hc : deref c (manualBuilders w) = Some b) :
  times n (CarManualBuilder_getProduct c) w = Some (replicate n (manual b), w).
Proof.
  induction n as [|n IH]; [reflexivity|]. cbn [times].
  rewrite (bind_Some _ _ _ _ _ (CarManualBuilder_getProduct_ok c b w Hc)).
  now rewrite (bind_Some _ _ _ _ _ IH).
Qed.

(** ** Every action is made of elementary transitions *)

Lemma transitions_one w w' : transition w w' -> transitions w w'.
Proof. intros Ht. eapply transitions_step; [exact Ht | apply transitions_refl]. Qed.

Lemma perform_transitions a w w' :
  perform a w = Some (tt, w') -> transitions w w'.
Proof.
  destruct a as [| | | c o | c o | d [c|c] | d [c|c]]; simpl; intros Hp.
  - unfold bind in Hp. rewrite NewCarBuilder_ok in Hp. injection Hp as <-.
    eapply transitions_step; [apply alloc_car_builder|].
    apply transitions_one. eapply reset_car_builder.
    simpl. now apply list_lookup_middle.
  - unfold bind in Hp. rewrite NewCarManualBuilder_ok in Hp. injection Hp as <-.
    eapply transitions_step; [apply alloc_manual_builder|].
    apply transitions_one. eapply reset_manual_builder.
    simpl. now apply list_lookup_middle.
  - injection Hp as <-. apply transitions_one, alloc_director.
  - destruct (CarBuilder_op_inv c o w w' Hp) as [[_ ->]|(_ & l & b & -> & Hb & ->)].
    + apply transitions_refl.
    + apply transitions_one. now apply (reset_car_builder w l b).
  - destruct (CarManualBuilder_op_inv c o w w' Hp) as [[_ ->]|(_ & l & b & -> & Hb & ->)].
    + apply transitions_refl.
    + apply transitions_one. now apply (reset_manual_builder w l b).
  - rewrite constructSportsCar_CarBuilder_reset in Hp.
    destruct (CarBuilder_op_inv c (OpCall CallReset) w w' Hp)
      as [[Ha _]|(_ & l & b & -> & Hb & ->)]; [discriminate|].
    apply transitions_one. now apply (reset_car_builder w l b).
  - injection Hp as <-. apply transitions_refl.
  - rewrite constructSportsCar_CarManualBuilder_reset in Hp.
    destruct (CarManualBuilder_op_inv c (OpCall CallReset) w w' Hp)
      as [[Ha _]|(_ & l & b & -> & Hb & ->)]; [discriminate|].
    apply transitions_one. now apply (reset_manual_builder w l b).
  - injection Hp as <-. apply transitions_refl.
Qed.

Lemma transitions_trans w1 w2 w3 :
  transitions w1 w2 -> transitions w2 w3 -> transitions w1 w3.
Proof.
  induction 1 as [|w1 w2 w2' Ht _ IH]; [trivial|].
  intros H3. eapply transitions_step; [exact Ht | now apply IH].
Qed.

Lemma run_all_perform_transitions actions : forall w w',
  run_all perform actions w = Some (tt, w') -> transitions w w'.
Proof.
  induction actions as [|a actions IH]; intros w w' Hrun; simpl in Hrun.
  - injection Hrun as <-. apply transitions_refl.
  - unfold bind in Hrun. destruct (perform a w) as [[[] w1]|] eqn:Hp; [|discriminate].
    apply (transitions_trans w w1 w'); [now apply (perform_transitions a) | now apply IH].
Qed.

(** A property kept by every elementary transition is kept by every
    sequence of actions that returns. *)
Lemma actions_preserve (I : World -> Prop) :
  (forall w w', I w -> transition w w' -> I w') ->
  forall actions w w',
    I w -> run_all perform actions w = Some (tt, w') -> I w'.
Proof.
  intros Hstep actions w w' Hw Hrun.
  apply run_all_perform_transitions in Hrun.
  induction Hrun as [|w1 w2 w3 Ht _ IH]; [exact Hw|].
  apply IH. now apply (Hstep w1).
Qed.

(** ** Lists of pointers *)

Lemma forallb_lookup {A} (f : A -> bool) (l : list A) :
  forallb f l = true <-> forall i x, l !! i = Some x -> f x = true.
Proof.
  induction l as [|y l IH]; simpl.
  - split; [intros _ i x Hx; discriminate | reflexivity].
  - rewrite andb_true_iff, IH. split.
    + intros [Hy Hl] [|i] x Hx; simpl in Hx; [now injection Hx as <- | now apply (Hl i)].
    + intros H. split; [now apply (H 0) | intros i x Hx; now apply (H (Datatypes.S i))].
Qed.

Lemma forallb_insert {A} (f : A -> bool) (l : list A) (i : nat) (x : A) :
  forallb f l = true -> f x = true -> forallb f (<[i := x]> l) = true.
Proof.
  rewrite !forallb_lookup. intros Hl Hx j y Hy.
  apply list_lookup_insert_Some in Hy as [(_ & <- & _)|(_ & Hy)]; [exact Hx|].
  now apply (Hl j).
Qed.

Lemma forallb_impl {A} (f g : A -> bool) (l : list A) :
  (forall x, f x = true -> g x = true) -> forallb f l = true -> forallb g l = true.
Proof. rewrite !forallb_lookup. intros Hfg Hl i x Hx. apply Hfg. now apply (Hl i). Qed.

Lemma valid_ptr_alloc {T} (p : ptr T) (h : list T) (x : T) :
  valid_ptr p h = true -> valid_ptr p (h ++ [x]) = true.
Proof.
  destruct p as [|l]; simpl; [reflexivity|].
  rewrite !bool_decide_eq_true, length_app. simpl. lia.
Qed.

Lemma valid_ptr_new {T} (h : list T) (x : T) :
  valid_ptr (Ref (length h)) (h ++ [x]) = true.
Proof. simpl. rewrite bool_decide_eq_true, length_app. simpl. lia. Qed.

(** ** Worlds stay well formed *)

Lemma transition_wf w w' :
  World_wf w = true -> transition w w' -> World_wf w' = true.
Proof.
  unfold World_wf, held_cars, held_manuals. rewrite !andb_true_iff.
  intros [Hc Hm] Ht. destruct Ht as [w | w | w | w l b Hb | w l b Hb]; simpl.
  - now split.
  - split; [|exact Hm]. rewrite fmap_app, forallb_app, Hc. reflexivity.
  - split; [exact Hc|]. rewrite fmap_app, forallb_app, Hm. reflexivity.
  - split; [|exact Hm]. rewrite list_fmap_insert. apply forallb_insert.
    + revert Hc. apply forallb_impl. intros p. apply valid_ptr_alloc.
    + apply valid_ptr_new.
  - split; [exact Hc|]. rewrite list_fmap_insert. apply forallb_insert.
    + revert Hm. apply forallb_impl. intros p. apply valid_ptr_alloc.
    + apply valid_ptr_new.
Qed.

(** From a world in which every builder's product pointer is nil or refers
    to an allocated product, every sequence of actions that returns ends in
    such a world: the package never leaves a builder with a pointer to
    something that was not allocated. *)
Theorem actions_keep_wf (actions : list Action) (w w' : World)
    (Hwf : World_wf w = true)
    (Hrun : run_all perform actions w = Some (tt, w')) :
  World_wf w' = true.
Proof.
  exact (actions_preserve (fun w => World_wf w = true) transition_wf actions w w' Hwf Hrun).
Qed.

(** ** Nothing is ever taken away *)

Lemma transition_keeps w w' :
  transition w w' ->
  (forall p x, deref p (cars w) = Some x -> deref p (cars w') = Some x) /\
  (forall p x, deref p (manuals w) = Some x -> deref p (manuals w') = Some x) /\
  (forall d x, deref d (directors w) = Some x -> deref d (directors w') = Some x) /\
  (forall c, is_Some (deref c (carBuilders w)) -> is_Some (deref c (carBuilders w'))) /\
  (forall c, is_Some (deref c (manualBuilders w)) ->
             is_Some (deref c (manualBuilders w'))).
Proof.
  assert (Happ : forall T (p : ptr T) h y x, deref p h = Some x -> deref p (h ++ [y]) = Some x).
  { intros T p h y x Hx. rewrite deref_alloc_old; [exact Hx|].
    now apply (deref_Some_valid _ _ x). }
  assert (Hsnoc : forall T (c : ptr T) h y, is_Some (deref c h) -> is_Some (deref c (h ++ [y]))).
  { intros T c h y [x Hx]. exists x. now apply Happ. }
  assert (Hins : forall T (c : ptr T) h l y,
             is_Some (deref c h) -> is_Some (deref c (<[l := y]> h))).
  { intros T [|j] h l y; simpl; [trivial|].
    rewrite !lookup_lt_is_Some, length_insert. trivial. }
  intros Ht. destruct Ht as [w | w | w | w l b Hb | w l b Hb]; simpl;
    repeat split; auto.
Qed.

(** Through every sequence of actions that returns, each product, each
    director and each builder struct that existed is still allocated, and
    the products have the value they had: a product handed to a client is
    never overwritten or freed by later use of the package. *)
Theorem actions_keep_allocated (actions : list Action) (w w' : World)
    (Hrun : run_all perform actions w = Some (tt, w')) :
  (forall p x, deref p (cars w) = Some x -> deref p (cars w') = Some x) /\
  (forall p x, deref p (manuals w) = Some x -> deref p (manuals w') = Some x) /\
  (forall d x, deref d (directors w) = Some x -> deref d (directors w') = Some x) /\
  (forall c, is_Some (deref c (carBuilders w)) -> is_Some (deref c (carBuilders w'))) /\
  (forall c, is_Some (deref c (manualBuilders w)) ->
             is_Some (deref c (manualBuilders w'))).
Proof.
  apply run_all_perform_transitions in Hrun.
  induction Hrun as [w|w1 w2 w3 Ht _ IH]; [now repeat split|].
  destruct (transition_keeps w1 w2 Ht) as (H1 & H2 & H3 & H4 & H5).
  destruct IH as (I1 & I2 & I3 & I4 & I5).
  repeat split; eauto.
Qed.

(** ** The client *)

Lemma on_heap_Some {A} (m : M World A) w out a w' :
  m w = Some (a, w') -> on_heap m (mkProcess w out) = Some (a, mkProcess w' out).
Proof. intros E. unfold on_heap; simpl. now rewrite E. Qed.

Lemma insert_last {A} (l : list A) (x y : A) :
  <[length l := y]> (l ++ [x]) = l ++ [y].
Proof. rewrite insert_app_r_alt, Nat.sub_diag; [reflexivity | lia]. Qed.

(** [reset] of the car builder allocated last. *)
Lemma after_CarBuilder_reset_last cs ms bs x mbs ds :
  after_CarBuilder_reset (length bs) (mkWorld cs ms (bs ++ [x]) mbs ds) =
  mkWorld (cs ++ [mkCar]) ms (bs ++ [mkCarBuilder (Ref (length cs))]) mbs ds.
Proof. unfold after_CarBuilder_reset; simpl. now rewrite insert_last. Qed.

Lemma after_CarManualBuilder_reset_last cs ms bs mbs x ds :
  after_CarManualBuilder_reset (length mbs) (mkWorld cs ms bs (mbs ++ [x]) ds) =
  mkWorld cs (ms ++ [mkManual]) bs (mbs ++ [mkCarManualBuilder (Ref (length ms))]) ds.
Proof. unfold after_CarManualBuilder_reset; simpl. now rewrite insert_last. Qed.

Ltac world_simpl :=
  unfold with_cars, with_manuals, with_carBuilders, with_manualBuilders, with_directors;
  cbn [cars manuals carBuilders manualBuilders directors heap stdout car manual].

(** The run of [makeCar], step by step, in the stores of the model. *)
Lemma makeCar_explicit (a : ptr Application) (w : World) (out : list Printed) :
  makeCar a (mkProcess w out) =
  Some (tt,
        mkProcess
          (mkWorld (cars w ++ [mkCar; mkCar; mkCar])
                   (manuals w ++ [mkManual; mkManual])
                   (carBuilders w ++ [mkCarBuilder (Ref (length (cars w) + 2))])
                   (manualBuilders w ++ [mkCarManualBuilder (Ref (length (manuals w) + 1))])
                   (directors w ++ [mkDirector]))
          (out ++ [PrintedCar (Ref (length (cars w) + 1));
                   PrintedManual (Ref (length (manuals w) + 1))])).
Proof.
  destruct w as [cs ms bs mbs ds]. unfold makeCar.
  assert (Hb1 : forall p, (bs ++ [mkCarBuilder p]) !! length bs = Some (mkCarBuilder p))
    by (intros; now apply list_lookup_middle).
  assert (Hb2 : forall p, (mbs ++ [mkCarManualBuilder p]) !! length mbs
                          = Some (mkCarManualBuilder p))
    by (intros; now apply list_lookup_middle).
  (* director *)
  rewrite (bind_Some _ _ _ _ _ (on_heap_Some NewDirector _ out _ _ eq_refl)).
  world_simpl.
  (* car builder *)
  erewrite bind_Some; [|apply on_heap_Some, NewCarBuilder_ok].
  world_simpl. rewrite after_CarBuilder_reset_last.
  erewrite bind_Some;
    [|apply on_heap_Some;
      rewrite constructSportsCar_OfCarBuilder;
      eapply CarBuilder_reset_ok; apply Hb1].
  rewrite after_CarBuilder_reset_last.
  erewrite bind_Some; [|apply on_heap_Some; reflexivity].
  erewrite bind_Some;
    [|apply on_heap_Some; eapply CarBuilder_getProduct_ok; apply Hb1].
  rewrite after_CarBuilder_reset_last.
  erewrite bind_Some; [|reflexivity].
  world_simpl.
  (* manual builder *)
  erewrite bind_Some; [|apply on_heap_Some, NewCarManualBuilder_ok].
  world_simpl. rewrite after_CarManualBuilder_reset_last.
  erewrite bind_Some;
    [|apply on_heap_Some;
      rewrite constructSportsCar_OfCarManualBuilder;
      eapply CarManualBuilder_reset_ok; apply Hb2].
  rewrite after_CarManualBuilder_reset_last.
  erewrite bind_Some; [|apply on_heap_Some; reflexivity].
  erewrite bind_Some;
    [|apply on_heap_Some; apply (CarManualBuilder_getProduct_ok (Ref (length mbs)));
      apply Hb2].
  unfold Println. world_simpl.
  rewrite !length_app. simpl length.
  rewrite <- !app_assoc. simpl app.
  rewrite <- !Nat.add_assoc. reflexivity.
Qed.

(** In every world and on every receiver, [makeCar] returns without panic:
    both type assertions succeed.  It prints exactly two values, first a
    non-nil pointer to an empty car, then a non-nil pointer to an empty
    manual.  It creates one car builder and one manual builder; at the end
    the car builder holds a non-nil pointer and the manual builder holds
    the manual that was printed.  The builders, products and directors that
    existed are as they were. *)
Theorem makeCar_run (a : ptr Application) (w : World) (out : list Printed) :
  exists car manual cb mb w',
    makeCar a (mkProcess w out) =
      Some (tt, mkProcess w' (out ++ [PrintedCar car; PrintedManual manual])) /\
    car <> Nil /\
    deref car (cars w') = Some mkCar /\
    manual <> Nil /\
    deref manual (manuals w') = Some mkManual /\
    deref cb (carBuilders w) = None /\
    CarBuilder_has_product cb w' = true /\
    deref mb (manualBuilders w) = None /\
    deref mb (manualBuilders w') = Some (mkCarManualBuilder manual) /\
    length (carBuilders w') = length (carBuilders w) + 1 /\
    length (manualBuilders w') = length (manualBuilders w) + 1 /\
    (forall c x, deref c (carBuilders w) = Some x -> deref c (carBuilders w') = Some x) /\
    (forall c x, deref c (manualBuilders w) = Some x ->
                 deref c (manualBuilders w') = Some x) /\
    (forall p x, deref p (cars w) = Some x -> deref p (cars w') = Some x) /\
    (forall p x, deref p (manuals w) = Some x -> deref p (manuals w') = Some x) /\
    (forall d x, deref d (directors w) = Some x -> deref d (directors w') = Some x).
Proof.
  assert (Hkeep : forall T (p : ptr T) h h' x,
             deref p h = Some x -> deref p (h ++ h') = Some x).
  { intros T [|k] h h' x; simpl; [discriminate|]. intros Hx.
    rewrite lookup_app_l; [exact Hx | now apply lookup_lt_Some in Hx]. }
  eexists (Ref (length (cars w) + 1)), (Ref (length (manuals w) + 1)),
          (Ref (length (carBuilders w))), (Ref (length (manualBuilders w))), _.
  split; [apply makeCar_explicit|]. cbn [cars manuals carBuilders manualBuilders directors].
  repeat apply conj; try discriminate; try (intros ? ?; apply Hkeep).
  - simpl. rewrite lookup_app_r, Nat.add_comm, Nat.add_sub; [reflexivity | lia].
  - simpl. rewrite lookup_app_r, Nat.add_comm, Nat.add_sub; [reflexivity | lia].
  - apply deref_unallocated.
  - unfold CarBuilder_has_product; simpl.
    now rewrite list_lookup_middle.
  - apply deref_unallocated.
  - simpl. now apply list_lookup_middle.
  - rewrite length_app. reflexivity.
  - rewrite length_app. reflexivity.
Qed.

(** ** The two builders do not interfere *)

Lemma bind_assoc {S A B C} (m : M S A) (k : A -> M S B) (h : B -> M S C) s :
  bind (bind m k) h s = bind m (fun a => bind (k a) h) s.
Proof. unfold bind. now destruct (m s) as [[a s']|]. Qed.

Lemma bind_ext_l {S A B} (m1 m2 : M S A) (k : A -> M S B) s :
  m1 s = m2 s -> bind m1 k s = bind m2 k s.
Proof. unfold bind. now intros ->. Qed.

Lemma bind_ext_r {S A B} (m : M S A) (k1 k2 : A -> M S B) s :
  (forall a s', k1 a s' = k2 a s') -> bind m k1 s = bind m k2 s.
Proof. intros Hk. unfold bind. now destruct (m s) as [[a s']|]. Qed.

(** An operation of a car builder is, as a function of the world, the
    identity, the panic, or [reset] of the builder struct at some place. *)
Lemma CarBuilder_op_shape c o :
  (forall w, CarBuilder_op c o w = Some (tt, w)) \/
  (forall w, CarBuilder_op c o w = None) \/
  (exists l, forall w, CarBuilder_op c o w =
                       match carBuilders w !! l with
                       | Some _ => Some (tt, after_CarBuilder_reset l w)
                       | None => None
                       end).
Proof.
  destruct (is_setter_op o) eqn:Hs.
  - left. intros w. now apply CarBuilder_op_setter.
  - right. destruct c as [|l].
    + left. intros w. destruct o as [[| v | v | v | v]|]; try discriminate; reflexivity.
    + right. exists l. intros w.
      destruct (carBuilders w !! l) as [b|] eqn:Hb;
        destruct o as [[| v | v | v | v]|]; try discriminate; simpl.
      * now apply (CarBuilder_reset_ok l b).
      * now rewrite (bind_Some _ _ _ _ _ (CarBuilder_getProduct_ok l b w Hb)).
      * now apply CarBuilder_reset_unallocated.
      * unfold bind. now rewrite (CarBuilder_getProduct_unallocated (Ref l) w Hb).
Qed.

(** An operation of a manual builder is the identity, the panic, [reset]
    at some place, or the identity guarded by a dereference. *)
Lemma CarManualBuilder_op_shape c o :
  (forall w, CarManualBuilder_op c o w = Some (tt, w)) \/
  (forall w, CarManualBuilder_op c o w = None) \/
  (exists l, forall w, CarManualBuilder_op c o w =
                       match manualBuilders w !! l with
                       | Some _ => Some (tt, after_CarManualBuilder_reset l w)
                       | None => None
                       end) \/
  (exists l, forall w, CarManualBuilder_op c o w =
                       match manualBuilders w !! l with
                       | Some _ => Some (tt, w)
                       | None => None
                       end).
Proof.
  destruct o as [[| v | v | v | v]|]; try (left; intros w; reflexivity).
  - right. destruct c as [|l]; [left; intros w; reflexivity|].
    right. left. exists l. intros w. simpl.
    destruct (manualBuilders w !! l) as [b|] eqn:Hb.
    + now apply (CarManualBuilder_reset_ok l b).
    + now apply CarManualBuilder_reset_unallocated.
  - right. destruct c as [|l]; [left; intros w; reflexivity|].
    right. right. exists l. intros w. simpl.
    destruct (manualBuilders w !! l) as [b|] eqn:Hb.
    + now rewrite (bind_Some _ _ _ _ _ (CarManualBuilder_getProduct_ok (Ref l) b w Hb)).
    + unfold bind. now rewrite (CarManualBuilder_getProduct_unallocated (Ref l) w Hb).
Qed.

Lemma ops_commute_one c m o1 o2 w :
  (CarBuilder_op c o1 ;;; CarManualBuilder_op m o2) w =
  (CarManualBuilder_op m o2 ;;; CarBuilder_op c o1) w.
Proof.
  unfold bind.
  destruct (CarBuilder_op_shape c o1) as [H1|[H1|[l1 H1]]];
    destruct (CarManualBuilder_op_shape m o2) as [H2|[H2|[[l2 H2]|[l2 H2]]]];
    repeat (first
      [ progress rewrite ?H1, ?H2
      | progress cbn beta iota
      | progress (unfold after_CarBuilder_reset, after_CarManualBuilder_reset;
                  cbn [cars manuals carBuilders manualBuilders directors])
      | match goal with
        | E : ?t = _ |- context [match ?t with _ => _ end] => rewrite E
        | |- context [match ?h !! ?l with _ => _ end] => destruct (h !! l) eqn:?
        end ]);
    reflexivity.
Qed.

Lemma ops_commute_one_many c m o1 ops2 : forall w,
  (CarBuilder_op c o1 ;;; run_all (CarManualBuilder_op m) ops2) w =
  (run_all (CarManualBuilder_op m) ops2 ;;; CarBuilder_op c o1) w.
Proof.
  induction ops2 as [|o2 ops2 IH]; intros w; simpl.
  - now rewrite bind_ret_tt.
  - rewrite <- bind_assoc.
    rewrite (bind_ext_l _ _ _ _ (ops_commute_one c m o1 o2 w)).
    rewrite !bind_assoc. apply bind_ext_r. intros _ s'. apply IH.
Qed.

(** Operations on a car builder and operations on a manual builder
    commute: a block of the ones followed by a block of the others gives
    the same result, final world and panics included, in either order. *)
Theorem builders_commute
    (c : ptr CarBuilder) (m : ptr CarManualBuilder) (ops1 ops2 : list Op) (w : World) :
  (run_all (CarBuilder_op c) ops1 ;;; run_all (CarManualBuilder_op m) ops2) w =
  (run_all (CarManualBuilder_op m) ops2 ;;; run_all (CarBuilder_op c) ops1) w.
Proof.
  revert w. induction ops1 as [|o1 ops1 IH]; intros w; simpl.
  - now rewrite bind_ret_tt.
  - rewrite bind_assoc.
    rewrite (bind_ext_r _ _ _ _ (fun _ s' => IH s')).
    rewrite <- !bind_assoc.
    apply bind_ext_l. apply ops_commute_one_many.
Qed.

(** ** Concrete runs of the rest of the package *)

Example type_assertion_mismatch :
  assert_CarBuilder (OfCarManualBuilder (Ref 0)) both_world = None /\
  assert_CarManualBuilder (OfCarBuilder (Ref 0)) both_world = None /\
  assert_CarBuilder NilBuilder both_world = None.
Proof. repeat split. Qed.

Lemma CarBuilder_ops_frame_witness :
  deref (Ref 0) (manualBuilders (mkWorld [mkCar; mkCar; mkCar] [mkManual]
                                         [mkCarBuilder (Ref 2)]
                                         [mkCarManualBuilder (Ref 0)] []))
  = deref (Ref 0) (manualBuilders both_world).
Proof.
  destruct (CarBuilder_ops_frame (Ref 0)
              [OpCall (CallSetSeats [AInt 2]); OpGetProduct; OpCall CallReset]
              both_world
              (mkWorld [mkCar; mkCar; mkCar] [mkManual]
                       [mkCarBuilder (Ref 2)] [mkCarManualBuilder (Ref 0)] [])
              eq_refl) as (_ & _ & _ & _ & Hmb & _).
  now rewrite Hmb.
Defined.

Lemma CarManualBuilder_ops_frame_witness :
  deref (Ref 0) (carBuilders (mkWorld [mkCar] [mkManual; mkManual]
                                      [mkCarBuilder (Ref 0)]
                                      [mkCarManualBuilder (Ref 1)] []))
  = deref (Ref 0) (carBuilders both_world).
Proof.
  destruct (CarManualBuilder_ops_frame (Ref 0)
              [OpCall (CallSetSeats [AInt 2]); OpGetProduct; OpCall CallReset]
              both_world
              (mkWorld [mkCar] [mkManual; mkManual]
                       [mkCarBuilder (Ref 0)] [mkCarManualBuilder (Ref 1)] [])
              eq_refl) as (_ & _ & _ & _ & Hcb & _).
  now rewrite Hcb.
Defined.

Lemma CarBuilder_getProduct_times_witness :
  exists ps w' q,
    times 3 (CarBuilder_getProduct (Ref 0)) car_world = Some (ps, w') /\
    length ps = 3 /\
    deref (Ref 0) (carBuilders w') = Some (mkCarBuilder q) /\
    q <> Nil.
Proof.
  destruct (CarBuilder_getProduct_times (Ref 0) car_world (mkCarBuilder (Ref 0)) 3
              eq_refl) as (ps & w' & q & Hrun & Hlen & _ & _ & Hheld & Hq).
  exists ps, w', q. repeat split; try assumption.
  apply Hq. discriminate.
Defined.

Lemma CarManualBuilder_getProduct_times_witness :
  times 3 (CarManualBuilder_getProduct (Ref 0)) manual_world
  = Some ([Ref 0; Ref 0; Ref 0], manual_world).
Proof.
  exact (CarManualBuilder_getProduct_times (Ref 0) manual_world
           (mkCarManualBuilder (Ref 0)) 3 eq_refl).
Defined.

Lemma actions_keep_wf_witness :
  World_wf (mkWorld [mkCar; mkCar; mkCar] [mkManual]
                    [mkCarBuilder (Ref 2)] [mkCarManualBuilder (Ref 0)] [mkDirector])
  = true.
Proof.
  exact (actions_keep_wf
           [ActNewCarBuilder; ActNewCarManualBuilder; ActNewDirector;
            ActDirectCarBuilder (Ref 0) (SportsCar (Ref 0));
            ActCarBuilder (Ref 0) OpGetProduct]
           emptyWorld
           (mkWorld [mkCar; mkCar; mkCar] [mkManual]
                    [mkCarBuilder (Ref 2)] [mkCarManualBuilder (Ref 0)] [mkDirector])
           eq_refl eq_refl).
Defined.

Lemma actions_keep_allocated_witness :
  deref (Ref 0) (cars (mkWorld [mkCar; mkCar; mkCar] [mkManual; mkManual]
                               [mkCarBuilder (Ref 2)] [mkCarManualBuilder (Ref 1)] []))
  = Some mkCar.
Proof.
  exact (proj1 (actions_keep_allocated
                  [ActCarBuilder (Ref 0) OpGetProduct;
                   ActCarManualBuilder (Ref 0) (OpCall CallReset);
                   ActDirectCarBuilder Nil (SportsCar (Ref 0));
                   ActCarManualBuilder (Ref 0) OpGetProduct]
                  both_world
                  (mkWorld [mkCar; mkCar; mkCar] [mkManual; mkManual]
                           [mkCarBuilder (Ref 2)] [mkCarManualBuilder (Ref 1)] [])
                  eq_refl) (Ref 0) mkCar eq_refl).
Defined.
